(** * Agentic honey-pot: the conversation decision pipeline

    A shallow embedding of [app/core/extractor.py], [app/core/detector.py],
    [app/core/memory.py] and [app/core/orchestrator.py], and the properties
    the specification states about them.

    Conventions of the embedding.
    - A Python [str] is a [string]; the embedding is exact on ASCII text
      (bytes above 127 are carried through unchanged: they are no letter,
      digit, space or word character here).
    - A Python [float] is a primitive binary64 [float]; literals such as
      [0.1] are rounded to the nearest double exactly as Python reads them.
    - A Python [dict] keyed by session identifier is a [gmap string _]; a
      [list(set(..) | set(..))] is a [gset string] (its order is the hash
      order, which the program never relies on).
    - The compiled patterns of the source are regular-expression syntax
      trees interpreted by a backtracking matcher that enumerates the
      outcomes in the order Python's [re] tries them. *)

From Stdlib Require Import ZArith Ascii String List Bool Lia.
From Stdlib Require Import Uint63 Floats.
From stdpp Require Import gmap strings list pretty.

Set Warnings "-inexact-float".
Local Open Scope string_scope.

(** ** Characters and strings *)

Module Chars.

Definition code (c : ascii) : nat := nat_of_ascii c.

Definition between (lo hi c : ascii) : bool :=
  (code lo <=? code c)%nat && (code c <=? code hi)%nat.

Definition is_digit (c : ascii) : bool := between "0" "9" c.
Definition is_upper (c : ascii) : bool := between "A" "Z" c.
Definition is_lower (c : ascii) : bool := between "a" "z" c.
Definition is_alpha (c : ascii) : bool := is_upper c || is_lower c.

(** [\s] on a [str] pattern: tab to carriage return, the four
    separators 28..31 and the space. *)
Definition is_space (c : ascii) : bool :=
  ((9 <=? code c)%nat && (code c <=? 13)%nat)
  || ((28 <=? code c)%nat && (code c <=? 32)%nat).

(** [\w]: letters, digits and the underscore. *)
Definition is_word (c : ascii) : bool :=
  is_alpha c || is_digit c || Ascii.eqb c "_".

Definition lower (c : ascii) : ascii :=
  if is_upper c then ascii_of_nat (code c + 32) else c.
Definition upper (c : ascii) : ascii :=
  if is_lower c then ascii_of_nat (code c - 32) else c.

Definition one_of (s : string) (c : ascii) : bool :=
  existsb (Ascii.eqb c) (list_ascii_of_string s).

Definition either (p q : ascii -> bool) (c : ascii) : bool := p c || q c.

End Chars.

Module Str.

(** [s.lower()] *)
Definition lower (s : string) : string :=
  string_of_list_ascii (map Chars.lower (list_ascii_of_string s)).

Fixpoint starts_with (p s : list ascii) : bool :=
  match p, s with
  | [], _ => true
  | _ :: _, [] => false
  | a :: p', b :: s' => Ascii.eqb a b && starts_with p' s'
  end.

Fixpoint contains_chars (p s : list ascii) : bool :=
  starts_with p s
  || match s with
     | [] => false
     | _ :: s' => contains_chars p s'
     end.

(** [sub in s] *)
Definition contains (sub s : string) : bool :=
  contains_chars (list_ascii_of_string sub) (list_ascii_of_string s).

(** [s.startswith(p)] *)
Definition startswith (s p : string) : bool :=
  starts_with (list_ascii_of_string p) (list_ascii_of_string s).

(** [s[n:]] *)
Definition drop (n : nat) (s : string) : string :=
  string_of_list_ascii (skipn n (list_ascii_of_string s)).

(** [s.isascii()]: the texts on which a [string] here and its classes of
    characters are the [str] of the program and the classes of [re]. *)
Definition isascii (s : string) : bool :=
  forallb (fun c => (Chars.code c <? 128)%nat) (list_ascii_of_string s).

End Str.

(** ** Python's [re], as far as the source uses it *)

Module Re.

Inductive regex : Type :=
| Eps                                   (* the empty pattern *)
| Chars (p : ascii -> bool)             (* a literal, a class or an escape *)
| Seq (r1 r2 : regex)                   (* r1 r2 *)
| Alt (r1 r2 : regex)                   (* r1|r2, r1 tried first *)
| Rep (r : regex) (lo : nat) (hi : option nat)   (* greedy r{lo,hi} *)
| Group (r : regex)                     (* a capturing group (r) *)
| WordB.                                (* \b *)

(** A matcher state: the character before the cursor, the text after
    it, and what the capturing group holds. *)
Record mstate : Type := MState {
  before : option ascii;
  rest : list ascii;
  grp : option (list ascii)
}.

Definition test (ic : bool) (p : ascii -> bool) (c : ascii) : bool :=
  p c || (ic && (p (Chars.lower c) || p (Chars.upper c))).

Definition word_opt (o : option ascii) : bool :=
  match o with
  | Some c => Chars.is_word c
  | None => false
  end.

(** Greedy repetition: one more round of [body] is tried before
    stopping; a round that consumes nothing is not repeated. *)
Fixpoint rep (body : mstate -> list mstate) (fuel lo : nat) (hi : option nat)
    (st : mstate) : list mstate :=
  let stop := if (lo =? 0)%nat then [st] else [] in
  match fuel with
  | O => stop
  | S f =>
      let more :=
        match hi with
        | Some O => []
        | _ =>
            flat_map
              (fun st' =>
                 if (length (rest st') <? length (rest st))%nat
                 then rep body f (Nat.pred lo) (option_map Nat.pred hi) st'
                 else [])
              (body st)
        end in
      more ++ stop
  end.

(** All the ways [r] matches at [st], in the order a backtracking
    matcher reaches them; the head is the match Python reports. *)
Fixpoint run (ic : bool) (r : regex) (st : mstate) : list mstate :=
  match r with
  | Eps => [st]
  | Chars p =>
      match rest st with
      | c :: tl => if test ic p c then [MState (Some c) tl (grp st)] else []
      | [] => []
      end
  | Seq r1 r2 => flat_map (run ic r2) (run ic r1 st)
  | Alt r1 r2 => run ic r1 st ++ run ic r2 st
  | Rep r' lo hi => rep (run ic r') (length (rest st)) lo hi st
  | Group r' =>
      map (fun st' =>
             MState (before st') (rest st')
               (Some (firstn (length (rest st) - length (rest st')) (rest st))))
          (run ic r' st)
  | WordB =>
      if xorb (word_opt (before st)) (word_opt (head (rest st)))
      then [st] else []
  end.

Fixpoint has_group (r : regex) : bool :=
  match r with
  | Group _ => true
  | Seq r1 r2 | Alt r1 r2 => has_group r1 || has_group r2
  | Rep r' _ _ => has_group r'
  | _ => false
  end.

(** Patterns without [\b]: what they match does not depend on the text
    after the match. *)
Fixpoint boundary_free (r : regex) : bool :=
  match r with
  | WordB => false
  | Seq r1 r2 | Alt r1 r2 => boundary_free r1 && boundary_free r2
  | Rep r' _ _ | Group r' => boundary_free r'
  | Eps | Chars _ => true
  end.

(** A compiled pattern: the expression and the [re.IGNORECASE] flag. *)
Record pattern : Type := Pattern { expr : regex; ignorecase : bool }.

Fixpoint search_from (p : pattern) (prev : option ascii) (txt : list ascii) : bool :=
  match run (ignorecase p) (expr p) (MState prev txt None) with
  | _ :: _ => true
  | [] =>
      match txt with
      | [] => false
      | c :: tl => search_from p (Some c) tl
      end
  end.

(** [p.search(text)] is not [None]. *)
Definition search (p : pattern) (text : string) : bool :=
  search_from p None (list_ascii_of_string text).

(** [p.match(text)] is not [None]. *)
Definition matches (p : pattern) (text : string) : bool :=
  match run (ignorecase p) (expr p) (MState None (list_ascii_of_string text) None) with
  | _ :: _ => true
  | [] => false
  end.

(** The scan of [p.findall(text)]: non-overlapping matches from left to
    right; with one group in the pattern the item is the group's text,
    otherwise the whole match. *)
Fixpoint findall_from (fuel : nat) (p : pattern) (st : mstate) : list (list ascii) :=
  match fuel with
  | O => []
  | S f =>
      let skip :=
        match rest st with
        | [] => []
        | c :: tl => findall_from f p (MState (Some c) tl None)
        end in
      match run (ignorecase p) (expr p) st with
      | st' :: _ =>
          let n := (length (rest st) - length (rest st'))%nat in
          let item :=
            if has_group (expr p) then default [] (grp st')
            else firstn n (rest st) in
          item :: (if (n =? 0)%nat then skip
                   else findall_from f p (MState (before st') (rest st') None))
      | [] => skip
      end
  end.

Definition findall (p : pattern) (text : string) : list string :=
  let txt := list_ascii_of_string text in
  map string_of_list_ascii (findall_from (S (length txt)) p (MState None txt None)).

(** [re.sub(r'\D', '', text)], for ASCII [text]: what stays is 0-9. In
    a [str] the class [\D] also leaves the decimal digits of other
    scripts in place; they are not modelled, and what is stated of all
    inputs through this function is stated of ASCII inputs. *)
Definition sub_non_digits (text : string) : string :=
  string_of_list_ascii (List.filter Chars.is_digit (list_ascii_of_string text)).

(** *** Pattern syntax *)

Definition chr (c : ascii) : regex := Chars (Ascii.eqb c).

Fixpoint lit_chars (l : list ascii) : regex :=
  match l with
  | [] => Eps
  | [c] => chr c
  | c :: l' => Seq (chr c) (lit_chars l')
  end.

Definition lit (s : string) : regex := lit_chars (list_ascii_of_string s).

Fixpoint seq (rs : list regex) : regex :=
  match rs with
  | [] => Eps
  | [r] => r
  | r :: rs' => Seq r (seq rs')
  end.

Fixpoint alt (rs : list regex) : regex :=
  match rs with
  | [] => Chars (fun _ => false)
  | [r] => r
  | r :: rs' => Alt r (alt rs')
  end.

Definition lits (ss : list string) : regex := alt (map lit ss).

Definition opt (r : regex) : regex := Rep r 0 (Some 1).
Definition star (r : regex) : regex := Rep r 0 None.
Definition plus (r : regex) : regex := Rep r 1 None.
Definition times (r : regex) (lo hi : nat) : regex := Rep r lo (Some hi).

(** [\d] and [\s] on ASCII text: 0-9, and the ASCII white space. In a
    [str] pattern [\d] also matches the decimal digits of other
    scripts, which are not modelled. *)
Definition digit : regex := Chars Chars.is_digit.
Definition space : regex := Chars Chars.is_space.

End Re.

(** ** The entity extractor ([app/core/extractor.py]) *)

(** The five collections of an extraction result or of a session, over
    the container [C] that holds them. *)
Record intel (C : Type) : Type := Intel {
  upiIds : C;
  bankAccounts : C;
  phoneNumbers : C;
  phishingLinks : C;
  suspiciousKeywords : C
}.
Arguments Intel {C}.
Arguments upiIds {C}.
Arguments bankAccounts {C}.
Arguments phoneNumbers {C}.
Arguments phishingLinks {C}.
Arguments suspiciousKeywords {C}.

Module IntelligenceExtractor.
Import Re.

Module PATTERNS.

(** [\b[a-zA-Z0-9.\-_]{2,256}@(upi|paytm|ybl|...|amazonpay)\b],
    [re.IGNORECASE] *)
Definition upiIds : pattern :=
  Pattern
    (seq [ WordB;
           times (Chars (Chars.either Chars.is_alpha
                          (Chars.either Chars.is_digit (Chars.one_of ".-_")))) 2 256;
           chr "@";
           Group (lits [ "upi"; "paytm"; "ybl"; "oksbi"; "okhdfcbank"; "okicici";
                         "okaxis"; "okbizaxis"; "ibl"; "axl"; "payzapp"; "ikwik";
                         "fam"; "apl"; "abf"; "pingpay"; "olamoney"; "phonepe";
                         "googlepay"; "gpay"; "amazonpay" ]);
           WordB ])
    true.

(** [(?:account|a/c|acc|account number)[:\s]*(\d{9,18})\b],
    [re.IGNORECASE] *)
Definition bankAccounts : pattern :=
  Pattern
    (seq [ lits [ "account"; "a/c"; "acc"; "account number" ];
           star (Chars (Chars.either (Chars.one_of ":") Chars.is_space));
           Group (times digit 9 18);
           WordB ])
    true.

(** [(?:\+91[\-\s]?)?[0]?(?:91)?[789]\d{9}\b] *)
Definition phoneNumbers : pattern :=
  Pattern
    (seq [ opt (seq [ lit "+91";
                      opt (Chars (Chars.either (Chars.one_of "-") Chars.is_space)) ]);
           opt (chr "0");
           opt (lit "91");
           Chars (Chars.one_of "789");
           times digit 9 9;
           WordB ])
    false.

(** [http[s]?://(?:[a-zA-Z]|[0-9]|[$\-_@.&+]|[!*\\(\\),]|(?:%[0-9a-fA-F][0-9a-fA-F]))+] *)
Definition phishingLinks : pattern :=
  let hex := Chars (Chars.either Chars.is_digit
                      (Chars.either (Chars.between "a" "f") (Chars.between "A" "F"))) in
  Pattern
    (seq [ lit "http"; opt (chr "s"); lit "://";
           plus (alt [ Chars Chars.is_alpha;
                       Chars Chars.is_digit;
                       Chars (Chars.one_of "$-_@.&+");
                       Chars (Chars.one_of "!*\(),");
                       seq [ chr "%"; hex; hex ] ]) ])
    false.

(** [\b(bit\.ly|tinyurl\.com|goo\.gl|t\.co|ow\.ly|is\.gd|buff\.ly)/[a-zA-Z0-9]+\b],
    [re.IGNORECASE] *)
Definition shortenedLinks : pattern :=
  Pattern
    (seq [ WordB;
           Group (lits [ "bit.ly"; "tinyurl.com"; "goo.gl"; "t.co"; "ow.ly";
                         "is.gd"; "buff.ly" ]);
           chr "/";
           plus (Chars (Chars.either Chars.is_alpha Chars.is_digit));
           WordB ])
    true.

End PATTERNS.

Definition KEYWORD_CATEGORIES : list (string * list string) :=
  [ ("urgency", [ "urgent"; "immediately"; "now"; "today"; "expire"; "last chance" ]);
    ("authority", [ "bank"; "rbi"; "government"; "police"; "official"; "authorized" ]);
    ("action", [ "click"; "verify"; "update"; "confirm"; "share"; "pay"; "send" ]);
    ("threat", [ "blocked"; "suspended"; "terminated"; "disconnected"; "penalty";
                 "legal action" ]);
    ("financial", [ "upi"; "account"; "payment"; "transfer"; "fee"; "charge"; "refund" ]) ].

(** [_extract_keywords]: every listed keyword contained in the lowered
    text, once, in the order of the table. *)
Definition _extract_keywords (text : string) : list string :=
  let text_lower := Str.lower text in
  fold_left
    (fun found_keywords '(_, keywords) =>
       fold_left
         (fun found keyword =>
            if Str.contains keyword text_lower
               && negb (bool_decide (keyword ∈ found))
            then (found ++ [keyword])%list else found)
         keywords found_keywords)
    KEYWORD_CATEGORIES [].

(** [_deduplicate]: the first occurrence of every item, compared on the
    lowered value, in order. *)
Definition _deduplicate (items : list string) : list string :=
  snd (fold_left
         (fun '(seen, result) item =>
            let item_lower := Str.lower item in
            if bool_decide (item_lower ∈ (seen : gset string))
            then (seen, result)
            else ({[ item_lower ]} ∪ seen, (result ++ [item])%list))
         items (∅, [])).

(** [_normalize_phones] *)
Definition normalize_phone (phone : string) : option string :=
  let digits := sub_non_digits phone in
  let digits := if Str.startswith digits "0" then Str.drop 1 digits else digits in
  let digits :=
    if Str.startswith digits "91" && (10 <? String.length digits)%nat
    then Str.drop 2 digits else digits in
  if (String.length digits =? 10)%nat
     && Str.contains (String.substring 0 1 digits) "789"
  then Some ("+91" ++ digits) else None.

Definition _normalize_phones (phones : list string) : list string :=
  fold_left
    (fun normalized phone =>
       match normalize_phone phone with
       | Some n => (normalized ++ [n])%list
       | None => normalized
       end)
    phones [].

Definition extract (text : string) : intel (list string) :=
  let upi_matches := findall PATTERNS.upiIds text in
  let account_matches := findall PATTERNS.bankAccounts text in
  let phone_matches := findall PATTERNS.phoneNumbers text in
  let link_matches := findall PATTERNS.phishingLinks text in
  let short_link_matches := findall PATTERNS.shortenedLinks text in
  {| upiIds := _deduplicate upi_matches;
     bankAccounts := _deduplicate account_matches;
     phoneNumbers := _deduplicate (_normalize_phones phone_matches);
     phishingLinks :=
       _deduplicate (link_matches ++ map (String.append "http://") short_link_matches)%list;
     suspiciousKeywords := _extract_keywords text |}.

(** [validate_upi] *)
Definition validate_upi (upi_id : string) : bool := matches PATTERNS.upiIds upi_id.

(** [validate_phone] *)
Definition validate_phone (phone : string) : bool :=
  let digits := sub_non_digits phone in
  (String.length digits =? 10)%nat
  && Str.contains (String.substring 0 1 digits) "789".

End IntelligenceExtractor.

(** ** The scam classifier ([app/core/detector.py]) *)

(** [models.Message] *)
Inductive Sender : Type := scammer | user.

Record Message : Type := {
  sender : Sender;
  text : string;
  timestamp : Z
}.

Module ScamDetector.
Import Re.
Local Open Scope float_scope.

(** The tokens of a pattern separated by [\s*]. *)
Fixpoint spaced (rs : list regex) : regex :=
  match rs with
  | [] => Eps
  | [r] => r
  | r :: rs' => Seq r (Seq (star space) (spaced rs'))
  end.

(** [re.compile(pattern, re.IGNORECASE)] *)
Definition ci (r : regex) : pattern := Pattern r true.

Definition SCAM_PATTERNS : list (string * list pattern) :=
  [ ("UPI_FRAUD",
      [ ci (spaced [lit "upi"; lit "id"]);                      (* upi\s*id *)
        ci (spaced [lit "upi"; lit "payment"]);                 (* upi\s*payment *)
        ci (seq [chr "@";                                       (* @(paytm|ybl|...) *)
                 Group (lits ["paytm"; "ybl"; "oksbi"; "okhdfcbank"; "okicici"])]);
        ci (spaced [lit "send"; lit "money"]);                  (* send\s*money *)
        ci (spaced [lit "transfer"; lit "to"]);                 (* transfer\s*to *)
        ci (spaced [lit "verification"; lit "fee"]);            (* verification\s*fee *)
        ci (spaced [lit "activate"; lit "upi"]) ]);             (* activate\s*upi *)
    ("KYC_FRAUD",
      [ (* kyc\s*(expired|update|verify|pending|blocked) *)
        ci (spaced [lit "kyc";
                    Group (lits ["expired"; "update"; "verify"; "pending"; "blocked"])]);
        (* (update|verify)\s*your\s*(kyc|account|details) *)
        ci (spaced [Group (lits ["update"; "verify"]); lit "your";
                    Group (lits ["kyc"; "account"; "details"])]);
        (* account\s*will\s*be\s*(blocked|suspended|closed) *)
        ci (spaced [lit "account"; lit "will"; lit "be";
                    Group (lits ["blocked"; "suspended"; "closed"])]);
        (* account\s*(blocked|suspended|closed|expiry) *)
        ci (spaced [lit "account";
                    Group (lits ["blocked"; "suspended"; "closed"; "expiry"])]);
        ci (spaced [lit "rbi"; lit "mandate"]);                 (* rbi\s*mandate *)
        ci (spaced [lit "regulatory"; lit "compliance"]) ]);    (* regulatory\s*compliance *)
    ("ELECTRICITY_SCAM",
      [ ci (spaced [lit "electricity"; lit "bill"]);            (* electricity\s*bill *)
        (* power\s*supply\s*(cut|disconnect) *)
        ci (spaced [lit "power"; lit "supply"; Group (lits ["cut"; "disconnect"])]);
        ci (spaced [lit "pay"; lit "your"; lit "bill"]);        (* pay\s*your\s*bill *)
        (* overdue\s*(bill|payment) *)
        ci (spaced [lit "overdue"; Group (lits ["bill"; "payment"])]);
        (* connection\s*will\s*be\s*(cut|terminated) *)
        ci (spaced [lit "connection"; lit "will"; lit "be";
                    Group (lits ["cut"; "terminated"])]) ]);
    ("COURIER_SCAM",
      [ (* (fedex|dhl|aramex|bluedart)\s*parcel *)
        ci (spaced [Group (lits ["fedex"; "dhl"; "aramex"; "bluedart"]); lit "parcel"]);
        (* customs?\s*(duty|clearance|fee) *)
        ci (spaced [seq [lit "custom"; opt (chr "s")];
                    Group (lits ["duty"; "clearance"; "fee"])]);
        ci (spaced [lit "package"; lit "held"]);                (* package\s*held *)
        (* delivery\s*(pending|failed) *)
        ci (spaced [lit "delivery"; Group (lits ["pending"; "failed"])]);
        (* customs?\s*office *)
        ci (spaced [seq [lit "custom"; opt (chr "s")]; lit "office"]) ]);
    ("JOB_SCAM",
      [ (* (job|work)\s*(offer|opportunity|opening) *)
        ci (spaced [Group (lits ["job"; "work"]);
                    Group (lits ["offer"; "opportunity"; "opening"])]);
        (* amazon\s*(hiring|recruitment) *)
        ci (spaced [lit "amazon"; Group (lits ["hiring"; "recruitment"])]);
        (* part[\s-]?time\s*(job|work) *)
        ci (spaced [seq [lit "part";
                         opt (Chars (Chars.either Chars.is_space (Chars.one_of "-")));
                         lit "time"];
                    Group (lits ["job"; "work"])]);
        (* earn\s*(\₹|\d+) *)
        ci (spaced [lit "earn"; Group (alt [lit "₹"; plus digit])]);
        ci (spaced [lit "registration"; lit "fee"]) ]);         (* registration\s*fee *)
    ("LOTTERY_PRIZE",
      [ ci (Group (lits ["won"; "winner"; "congratulations"])); (* (won|winner|congratulations) *)
        ci (spaced [lit "lottery"; lit "prize"]);               (* lottery\s*prize *)
        (* claim\s*your\s*(prize|reward) *)
        ci (spaced [lit "claim"; lit "your"; Group (lits ["prize"; "reward"])]);
        ci (spaced [lit "lucky"; lit "draw"]);                  (* lucky\s*draw *)
        (* ₹\s*\d+\s*(lakh|crore) *)
        ci (spaced [lit "₹"; plus digit; Group (lits ["lakh"; "crore"])]) ]) ].

Definition URGENCY_KEYWORDS : list string :=
  [ "urgent"; "immediate"; "today"; "now"; "quickly"; "hurry";
    "expire"; "last chance"; "limited time"; "within 24 hours";
    "blocked"; "suspended"; "terminated"; "disconnected" ].

Definition AUTHORITY_KEYWORDS : list string :=
  [ "bank"; "rbi"; "government"; "police"; "cyber cell"; "income tax";
    "customs"; "courier company"; "official"; "authorized" ].

Definition SUSPICIOUS_ACTIONS : list string :=
  [ "click"; "link"; "verify"; "update"; "confirm"; "share";
    "send"; "pay"; "transfer"; "deposit"; "fee"; "charge" ].

Definition high_risk_keywords : list string :=
  [ "kyc"; "upi"; "blocked"; "suspended"; "verify"; "urgent" ].

(** An [int] read as a [float]. *)
Definition of_nat (n : nat) : float := PrimFloat.of_uint63 (Uint63.of_Z (Z.of_nat n)).

(** [a / b] on two [int]s. *)
Definition ratio (a b : nat) : float := of_nat a / of_nat b.

(** [max(a, b)] and [min(a, b)]: the first argument unless the second
    is strictly beyond it. *)
Definition fmax (a b : float) : float := if a <? b then b else a.
Definition fmin (a b : float) : float := if b <? a then b else a.

(** [sum(1 for pattern in patterns if pattern.search(message))] *)
Definition count_matches (patterns : list pattern) (message : string) : nat :=
  length (List.filter (fun p => search p message) patterns).

(** [sum(1 for keyword in keywords if keyword in message_lower)] *)
Definition count_keywords (keywords : list string) (message_lower : string) : nat :=
  length (List.filter (fun kw => Str.contains kw message_lower) keywords).

(** The [scores] dictionary, in insertion order. *)
Definition category_scores (message : string) : list (string * float) :=
  fold_left
    (fun scores '(category, patterns) =>
       let matches := count_matches patterns message in
       if (0 <? matches)%nat
       then (scores ++ [(category, ratio matches (length patterns))])%list
       else scores)
    SCAM_PATTERNS [].

(** [max(scores, key=scores.get)]: the first key with the largest score. *)
Definition max_by_score (scores : list (string * float)) : option (string * float) :=
  fold_left
    (fun best kv =>
       match best with
       | None => Some kv
       | Some b => if snd b <? snd kv then Some kv else best
       end)
    scores None.

(** The boost of the winning score: [max(0.6, score * 3)] when the
    score is positive. *)
Definition boost (category_confidence : float) : float :=
  if 0 <? category_confidence
  then fmax 0.6 (category_confidence * 3)
  else category_confidence.

Record rule_result : Type := {
  confidence : float;
  scam_type : string;
  category_confidence : float;
  urgency : float;
  authority : float;
  action : float
}.

Definition _rule_based_detection (message : string) : rule_result :=
  let message_lower := Str.lower message in
  let scores := category_scores message in
  let urgency_score :=
    ratio (count_keywords URGENCY_KEYWORDS message_lower) (length URGENCY_KEYWORDS) in
  let authority_score :=
    ratio (count_keywords AUTHORITY_KEYWORDS message_lower) (length AUTHORITY_KEYWORDS) in
  let action_score :=
    ratio (count_keywords SUSPICIOUS_ACTIONS message_lower) (length SUSPICIOUS_ACTIONS) in
  let '(scam_type, category_confidence) :=
    match max_by_score scores with
    | Some (scam_type, score) => (scam_type, boost score)
    | None => ("GENERIC_FRAUD"%string, 0)
    end in
  let signal_score := (urgency_score + authority_score + action_score) / 3 in
  let final_confidence := (category_confidence * 0.7) + (signal_score * 0.3) in
  let final_confidence :=
    if (0.1 <? urgency_score) && (0.05 <? authority_score)
    then fmin 1.0 (final_confidence + 0.15)
    else final_confidence in
  let high_risk_count := count_keywords high_risk_keywords message_lower in
  let final_confidence :=
    if (2 <=? high_risk_count)%nat
    then fmin 1.0 (final_confidence + 0.1)
    else final_confidence in
  {| confidence := final_confidence;
     scam_type := scam_type;
     category_confidence := category_confidence;
     urgency := urgency_score;
     authority := authority_score;
     action := action_score |}.

(** [detect]: [(is_scam, confidence, scam_type)] *)
Definition detect (message : string) (conversation_history : list Message)
    : bool * float * string :=
  let rule_result := _rule_based_detection message in
  if 0.2 <? confidence rule_result
  then (true, confidence rule_result, scam_type rule_result)
  else if negb (bool_decide (conversation_history = []))
          && (0.1 <? confidence rule_result)
  then (true, confidence rule_result, scam_type rule_result)
  else (false, confidence rule_result, "NONE"%string).

End ScamDetector.

(** ** Configuration ([app/config.py]) *)

Record Settings : Type := {
  MAX_CONVERSATION_TURNS : Z
}.

(** The values used when the environment overrides nothing. *)
Definition default_settings : Settings := {| MAX_CONVERSATION_TURNS := 15 |}.

(** ** The session store ([app/core/memory.py]) *)

(** A session dictionary. [finalized] and [finalized_at] are the keys
    that [_finalize_and_callback] adds: a session without them reads as
    [finalized = False]. Times are readings of the clock. The constant
    [persona_state] entry, which nothing here reads, is left out. *)
Record Session : Type := {
  session_id : string;
  created_at : Z;
  turn_count : nat;
  scam_detected : bool;
  scam_confidence : float;
  scam_type : string;
  extracted_intelligence : intel (gset string);
  conversation_history : list Message;
  last_message_time : Z;
  finalized : bool;
  finalized_at : option Z
}.

Module SessionMemory.

Definition empty_intelligence : intel (gset string) :=
  {| upiIds := ∅; bankAccounts := ∅; phoneNumbers := ∅;
     phishingLinks := ∅; suspiciousKeywords := ∅ |}.

Definition new_session (session_id : string) (conversation_history : list Message)
    (now : Z) : Session :=
  {| session_id := session_id;
     created_at := now;
     turn_count := 0;
     scam_detected := false;
     scam_confidence := 0%float;
     scam_type := "UNKNOWN";
     extracted_intelligence := empty_intelligence;
     conversation_history := conversation_history;
     last_message_time := now;
     finalized := false;
     finalized_at := None |}.

(** [get_or_create_session]: the stored session, or a fresh one that
    is stored under the identifier. *)
Definition get_or_create_session (session_id : string)
    (conversation_history : list Message) (now : Z)
    (sessions : gmap string Session) : gmap string Session * Session :=
  match sessions !! session_id with
  | Some session => (sessions, session)
  | None =>
      let session := new_session session_id conversation_history now in
      (<[session_id := session]> sessions, session)
  end.

(** [update_session]: stores only under an identifier already there. *)
Definition update_session (session_id : string) (session_data : Session)
    (sessions : gmap string Session) : gmap string Session :=
  if bool_decide (session_id ∈ dom sessions)
  then <[session_id := session_data]> sessions
  else sessions.

Definition get_session (session_id : string) (sessions : gmap string Session)
    : option Session :=
  sessions !! session_id.

Definition delete_session (session_id : string) (sessions : gmap string Session)
    : gmap string Session :=
  if bool_decide (session_id ∈ dom sessions)
  then delete session_id sessions
  else sessions.

Definition get_session_count (sessions : gmap string Session) : nat := size sessions.

(** [list_active_sessions]: the identifiers of the stored sessions. The
    dict lists them in the order they were first stored; the map here
    keeps no such order and lists them by key. *)
Definition list_active_sessions (sessions : gmap string Session) : list string :=
  map fst (map_to_list sessions).

(** An [int] read as a [float]; exact below 2^53 in magnitude. *)
Definition float_of_Z (z : Z) : float :=
  if (z <? 0)%Z
  then (- PrimFloat.of_uint63 (Uint63.of_Z (- z)))%float
  else PrimFloat.of_uint63 (Uint63.of_Z z).

(** [(now - created_at).total_seconds() / 3600], the clock readings
    counting microseconds; exact while the readings are less than 2^53
    microseconds apart. *)
Definition age_hours (now created : Z) : float :=
  (float_of_Z (now - created) / 1000000 / 3600)%float.

(** [cleanup_old_sessions], at the clock reading [now]: the sessions
    older than [max_age_hours] are collected, then deleted one by one;
    the result is their number. *)
Definition cleanup_old_sessions (max_age_hours : Z) (now : Z)
    (sessions : gmap string Session) : gmap string Session * nat :=
  let to_delete :=
    map fst
      (List.filter
         (fun '(_, session) =>
            (float_of_Z max_age_hours <? age_hours now (created_at session))%float)
         (map_to_list sessions)) in
  (fold_left (fun sessions session_id => delete_session session_id sessions)
     to_delete sessions,
   length to_delete).

End SessionMemory.

(** ** The orchestrator ([app/core/orchestrator.py]) *)

(** [models.IncomingRequest] (the optional metadata is never read). *)
Record IncomingRequest : Type := {
  sessionId : string;
  message : Message;
  conversationHistory : list Message
}.

(** [models.AgentResponse] with [status = "success"]. *)
Record AgentResponse : Type := { reply : string }.

(** [models.FinalResultPayload] *)
Record FinalResultPayload : Type := {
  payload_sessionId : string;
  scamDetected : bool;
  totalMessagesExchanged : nat;
  extractedIntelligence : intel (list string);
  agentNotes : string
}.

(** The orchestrator's state: the session store and the payloads handed
    to [send_final_result], latest first. Whether a delivery succeeds
    only changes what is logged. *)
Record World : Type := {
  memory : gmap string Session;
  sent : list FinalResultPayload
}.

Definition initial_world : World := {| memory := ∅; sent := [] |}.

(** The end condition that [_should_end_conversation] logs. *)
Inductive EndCondition : Type :=
| CriticalIntelligence      (* 1. a UPI id or a link, after one turn *)
| AnyEntity                 (* 2. any entity after two turns *)
| SufficientEngagement      (* 3. three turns *)
| MaxTurns.                 (* 4. the safety limit *)

Module ConversationOrchestrator.
Import SessionMemory.

Section Orchestrator.

Variable settings : Settings.

(** [PersonaManager.generate_response]: the reply of the persona, a
    random choice or a generated text; it reads the session and
    changes nothing. *)
Variable generate_response : string -> Session -> list Message -> string.

Definition with_detection (session : Session) (is_scam : bool) (confidence : float)
    (type : string) : Session :=
  {| session_id := session_id session;
     created_at := created_at session;
     turn_count := turn_count session;
     scam_detected := is_scam;
     scam_confidence := confidence;
     scam_type := type;
     extracted_intelligence := extracted_intelligence session;
     conversation_history := conversation_history session;
     last_message_time := last_message_time session;
     finalized := finalized session;
     finalized_at := finalized_at session |}.

Definition with_turn (session : Session) (intelligence : intel (gset string))
    (turns : nat) (now : Z) : Session :=
  {| session_id := session_id session;
     created_at := created_at session;
     turn_count := turns;
     scam_detected := scam_detected session;
     scam_confidence := scam_confidence session;
     scam_type := scam_type session;
     extracted_intelligence := intelligence;
     conversation_history := conversation_history session;
     last_message_time := now;
     finalized := finalized session;
     finalized_at := finalized_at session |}.

Definition with_finalized (session : Session) (now : Z) : Session :=
  {| session_id := session_id session;
     created_at := created_at session;
     turn_count := turn_count session;
     scam_detected := scam_detected session;
     scam_confidence := scam_confidence session;
     scam_type := scam_type session;
     extracted_intelligence := extracted_intelligence session;
     conversation_history := conversation_history session;
     last_message_time := last_message_time session;
     finalized := true;
     finalized_at := Some now |}.

(** [_merge_intelligence]: per key, [list(set(existing) | set(new))]. *)
Definition _merge_intelligence (existing : intel (gset string))
    (new : intel (list string)) : intel (gset string) :=
  {| bankAccounts := bankAccounts existing ∪ list_to_set (bankAccounts new);
     upiIds := upiIds existing ∪ list_to_set (upiIds new);
     phishingLinks := phishingLinks existing ∪ list_to_set (phishingLinks new);
     phoneNumbers := phoneNumbers existing ∪ list_to_set (phoneNumbers new);
     suspiciousKeywords :=
       suspiciousKeywords existing ∪ list_to_set (suspiciousKeywords new) |}.

(** The cascade of [_should_end_conversation], with the condition it
    logs. *)
Definition end_condition (session : Session) : option EndCondition :=
  let intelligence := extracted_intelligence session in
  let turn_count := turn_count session in
  let has_upi := (0 <? size (upiIds intelligence))%nat in
  let has_link := (0 <? size (phishingLinks intelligence))%nat in
  let total_entities :=
    (size (upiIds intelligence) + size (phishingLinks intelligence)
     + size (bankAccounts intelligence) + size (phoneNumbers intelligence))%nat in
  if (has_upi || has_link) && (1 <=? turn_count)%nat then Some CriticalIntelligence
  else if (2 <=? turn_count)%nat && (1 <=? total_entities)%nat then Some AnyEntity
  else if (3 <=? turn_count)%nat then Some SufficientEngagement
  else if (MAX_CONVERSATION_TURNS settings <=? Z.of_nat turn_count)%Z then Some MaxTurns
  else None.

Definition _should_end_conversation (session : Session) : bool :=
  match end_condition session with
  | Some _ => true
  | None => false
  end.

(** [_generate_agent_notes] *)
Definition _generate_agent_notes (session : Session) : string :=
  let intelligence := extracted_intelligence session in
  let notes_parts :=
    ([ "Scam type: " +:+ scam_type session;
       "Engagement duration: " +:+ pretty (turn_count session) +:+ " turns" ]
     ++ (if (0 <? size (upiIds intelligence))%nat
         then [ "Extracted " +:+ pretty (size (upiIds intelligence)) +:+ " UPI IDs" ]
         else [])
     ++ (if (0 <? size (phishingLinks intelligence))%nat
         then [ "Detected " +:+ pretty (size (phishingLinks intelligence))
                +:+ " phishing links" ]
         else [])
     ++ [ "Agent maintained Elderly Rajesh persona throughout" ])%list in
  String.concat ". " notes_parts +:+ ".".

Definition final_payload (session_id : string) (session : Session)
    : FinalResultPayload :=
  let intelligence_data := extracted_intelligence session in
  {| payload_sessionId := session_id;
     scamDetected := scam_detected session;
     totalMessagesExchanged := turn_count session;
     extractedIntelligence :=
       {| bankAccounts := elements (bankAccounts intelligence_data);
          upiIds := elements (upiIds intelligence_data);
          phishingLinks := elements (phishingLinks intelligence_data);
          phoneNumbers := elements (phoneNumbers intelligence_data);
          suspiciousKeywords := elements (suspiciousKeywords intelligence_data) |};
     agentNotes := _generate_agent_notes session |}.

(** [_finalize_and_callback]: nothing for a finalized session;
    otherwise the session is marked, stored, and the payload built
    from it goes to [send_final_result]. *)
Definition _finalize_and_callback (session_id : string) (session : Session)
    (now : Z) (w : World) : World :=
  if finalized session then w
  else
    let session := with_finalized session now in
    {| memory := update_session session_id session (memory w);
       sent := final_payload session_id session :: sent w |}.

Definition neutral_reply : string := "Thank you for your message. Have a nice day!".

(** Step 2 of [process_message]: on the first turn the detector's
    verdict is stored; the flag tells the early return taken for a
    message that is clearly no scam. *)
Definition detect_first_turn (request : IncomingRequest) (session : Session)
    : Session * bool :=
  if (turn_count session =? 0)%nat then
    let '(is_scam, confidence, type) :=
      ScamDetector.detect (text (message request)) (conversationHistory request) in
    let session := with_detection session is_scam confidence type in
    if negb is_scam && (confidence <? 0.1)%float then (session, true)
    else if negb is_scam
    then (with_detection session true (ScamDetector.fmax 0.5 confidence) type, false)
    else (session, false)
  else (session, false).

(** [process_message], at the clock reading [now]. *)
Definition process_message (request : IncomingRequest) (now : Z) (w : World)
    : World * AgentResponse :=
  let session_id := sessionId request in
  let message_text := text (message request) in
  let '(sessions, session) :=
    get_or_create_session session_id (conversationHistory request) now (memory w) in
  match detect_first_turn request session with
  | (session, true) =>
      ({| memory := update_session session_id session sessions; sent := sent w |},
       {| reply := neutral_reply |})
  | (session, false) =>
      let reply := generate_response message_text session (conversationHistory request) in
      let extracted := IntelligenceExtractor.extract message_text in
      let session :=
        with_turn session
          (_merge_intelligence (extracted_intelligence session) extracted)
          (turn_count session + 1) now in
      let w := {| memory := update_session session_id session sessions;
                  sent := sent w |} in
      let w := if _should_end_conversation session
               then _finalize_and_callback session_id session now w
               else w in
      (w, {| reply := reply |})
  end.

(** The orchestrator serving a sequence of requests, each with its
    clock reading, one after the other. *)
Definition serve (requests : list (IncomingRequest * Z)) (w : World) : World :=
  fold_left (fun w '(request, now) => fst (process_message request now w)) requests w.

End Orchestrator.

End ConversationOrchestrator.

(** ** The Reporter ([app/core/callback.py]) *)

Module Callback.

(** What one POST to the evaluation endpoint comes to. *)
Inductive outcome : Type :=
| Response (status_code : Z)
| TimeoutException
| RequestError
| UnexpectedError.

(** What [send_final_result] does, in order: the attempts, numbered from
    1, and the waits, in seconds. *)
Inductive event : Type :=
| Post (attempt : nat)
| Sleep (seconds : nat).

(** The loop of [send_final_result] from [attempt] on, with [remaining]
    rounds left; [network] tells the outcome of each attempt. *)
Fixpoint send_from (network : nat → outcome) (max_retries remaining attempt : nat)
    : bool * list event :=
  match remaining with
  | O => (false, [])
  | S remaining' =>
      let retry :=
        let wait :=
          if (attempt <? max_retries)%nat then [Sleep (2 ^ attempt)] else [] in
        let '(success, events) :=
          send_from network max_retries remaining' (S attempt) in
        (success, (Post attempt :: wait ++ events)%list) in
      match network attempt with
      | Response status_code =>
          if (status_code =? 200)%Z then (true, [Post attempt])
          else if (400 <=? status_code)%Z && (status_code <? 500)%Z
          then (false, [Post attempt])
          else retry
      | _ => retry
      end
  end.

(** [send_final_result(payload, max_retries)]; the payload is the same
    at every attempt. *)
Definition send_final_result (network : nat → outcome) (max_retries : nat)
    : bool * list event :=
  send_from network max_retries max_retries 1.

(** [send_final_result_sync]: one attempt. *)
Definition send_final_result_sync (network : nat → outcome) : bool :=
  match network 1%nat with
  | Response status_code => (status_code =? 200)%Z
  | _ => false
  end.

End Callback.

(** ** The persona ([app/core/persona.py]) *)

Module PersonaManager.

Definition _initial_response : list string :=
  [ "Beta, what is this? I don't understand. Why are you saying this?";
    "What happened? Is there some problem? I'm not understanding what you're saying.";
    "Hello? I'm old person, I don't know about these things. Can you explain simply?";
    "What is the matter? I am confused. Please tell me clearly what is the issue.";
    "I don't understand these technical words. Can you explain to me like a simple person?" ].

Definition _respond_to_upi_request (turn_count : nat) : list string :=
  if (turn_count <? 3)%nat
  then [ "What is UPI? I only use cash. My son handles my phone.";
         "UPI means what? I don't have smartphone, only Nokia button phone.";
         "I don't know about UPI. Can I just go to bank branch? That is easier for me.";
         "My grandson set up some payment thing, but I don't know how to use it. What should I do?" ]
  else [ "Wait, let me ask my son about UPI. Which app should I use?";
         "I have some payment app but I forgot the password. Can you tell me which bank you are from?";
         "My UPI... I think it's something with my name. But which one you need? I have many banks.";
         "Beta, which UPI handle you want? I have SBI and HDFC both. Tell me your employee ID first." ].

Definition _respond_to_link : list string :=
  [ "Link? How do I open link? My phone doesn't have internet. Can you come to my house?";
    "I can't click anything. My phone is very old. Can you just tell me what to do?";
    "My grandson said never click on any link. Are you really from the company?";
    "I don't know how to click. My hands shake. Can you send someone to help me?";
    "The link is not opening. My phone doesn't have data. What should I do now?" ].

Definition _respond_to_sensitive_request : list string :=
  [ "OTP means what? I don't get any message. My phone is basic phone.";
    "My son told me never share password with anyone. Are you from my bank really?";
    "I don't see any code. Maybe my phone is not working? What number did you send to?";
    "PIN? I only remember my ATM PIN for withdrawing cash. Is that what you need?";
    "I don't know about these security codes. Can I just visit the bank tomorrow?" ].

Definition _respond_to_urgency (turn_count : nat) : list string :=
  if (turn_count <? 2)%nat
  then [ "Why so urgent? What will happen? I'm getting worried now. Please tell me clearly.";
         "Oh no! What should I do? I'm alone at home. Should I call my son?";
         "Today itself? But I don't understand the problem. Why urgent?";
         "I'm getting scared. What will happen if I don't do it? Please explain properly." ]
  else [ "But I need time to understand. I'm old person, can't do things so fast.";
         "You're making me nervous. Let me first call bank customer care to confirm.";
         "Why are you rushing me? This sounds suspicious. My son warned me about fraud calls.";
         "Hold on, I want to verify this first. Give me your employee ID and supervisor number." ].

Definition _respond_to_account_request : list string :=
  [ "I have accounts in 3 banks. Which bank are you calling from? SBI or HDFC or ICICI?";
    "Account number? I have my passbook somewhere. Wait, let me find it. Which bank you said?";
    "I don't remember account number. It's written in my passbook. Are you really from bank?";
    "First tell me, why you need my account number? My son said never share on phone.";
    "Which account? I have savings and pension account both. Tell me your office address first." ].

Definition _respond_to_fee_request : list string :=
  [ "Fee for what? Nobody told me about any fee. How much is it?";
    "I have to pay money? But why? I thought you are helping me. This is confusing.";
    "How much fee? Can I pay at bank branch? I don't trust online payment.";
    "You want me to pay? But you called me saying my account has problem. Why I should pay?";
    "My son said never pay any fee on phone. Are you doing some fraud? Tell me truth." ].

Definition _generic_confused_response : list string :=
  [ "I'm not understanding what you're saying. Can you speak slowly?";
    "Beta, you're using too many English words. I'm simple person from village.";
    "What you are saying is too complicated for me. Can you explain in simple way?";
    "I'm getting more confused. Maybe I should ask my neighbor who knows computers.";
    "You're talking too fast. I'm old, my hearing is not good. Say again please.";
    "I don't know about all these modern things. Why don't you just send someone to my house?";
    "This is very confusing for me. Let me call my son, he will talk to you.";
    "I need to think about this. Can you call me tomorrow? I will ask my family." ].

(** [any(word in message for word in words)] *)
Definition any_word (words : list string) (message : string) : bool :=
  existsb (fun word => Str.contains word message) words.

(** [_select_response_strategy]: the responses to choose from. *)
Definition _select_response_strategy (message : string) (turn_count : nat) : list string :=
  if (turn_count =? 0)%nat then _initial_response
  else if any_word ["upi"; "payment"; "transfer"; "send money"] message
  then _respond_to_upi_request turn_count
  else if any_word ["link"; "click"; "website"; "http"; "bit.ly"] message
  then _respond_to_link
  else if any_word ["otp"; "code"; "password"; "pin"; "cvv"] message
  then _respond_to_sensitive_request
  else if any_word ["urgent"; "immediately"; "now"; "today"; "blocked"] message
  then _respond_to_urgency turn_count
  else if any_word ["account"; "bank"; "account number"] message
  then _respond_to_account_request
  else if any_word ["fee"; "pay"; "charge"; "amount"; "₹"; "rupees"] message
  then _respond_to_fee_request
  else _generic_confused_response.

(** [random.choice(responses)] with the random index [r]; nothing on an
    empty list, where Python raises. *)
Definition choice (r : nat) (responses : list string) : option string :=
  match responses with
  | [] => None
  | _ => nth_error responses (r mod length responses)
  end.

(** [generate_response]: the generated reply when there is one that is
    not empty, otherwise a response chosen by the rules from the lowered
    message and the turn count of the session. *)
Definition generate_response (llm_response : option string) (r : nat)
    (scammer_message : string) (session : Session) : option string :=
  let message_lower := Str.lower scammer_message in
  match llm_response with
  | Some reply =>
      if negb (String.eqb reply "") then Some reply
      else choice r (_select_response_strategy message_lower (turn_count session))
  | None => choice r (_select_response_strategy message_lower (turn_count session))
  end.

End PersonaManager.

(** ** What is observed of a world, and the specification's vocabulary *)

Module Spec.
Import SessionMemory ConversationOrchestrator.

(** The turn count, the finalized flag and the accumulated
    intelligence stored under an identifier; an identifier without a
    session has had no turn and holds nothing. *)
Definition stored_turns (sid : string) (w : World) : nat :=
  from_option turn_count 0%nat (memory w !! sid).

Definition is_finalized (sid : string) (w : World) : bool :=
  from_option finalized false (memory w !! sid).

Definition accumulated (sid : string) (w : World) : intel (gset string) :=
  from_option extracted_intelligence empty_intelligence (memory w !! sid).

(** The calls of the Reporter for an identifier. *)
Definition reports_for (sid : string) (w : World) : list FinalResultPayload :=
  List.filter (fun p => bool_decide (payload_sessionId p = sid)) (sent w).

(** A session has one report when it is finalized and none before. *)
Definition reported_once (w : World) : Prop :=
  ∀ sid, length (reports_for sid w) = if is_finalized sid w then 1%nat else 0%nat.

(** The session a request works on, and that session after the merge
    and the turn-count increment of an engaged turn. *)
Definition session_at (request : IncomingRequest) (now : Z) (w : World) : Session :=
  default (new_session (sessionId request) (conversationHistory request) now)
          (memory w !! sessionId request).

Definition session_after_turn (request : IncomingRequest) (now : Z) (w : World) : Session :=
  let s1 := fst (detect_first_turn request (session_at request now w)) in
  with_turn s1
    (_merge_intelligence (extracted_intelligence s1)
       (IntelligenceExtractor.extract (text (message request))))
    (turn_count s1 + 1) now.

(** The four termination conditions, as the specification words them. *)
Definition cond_a (s : Session) : Prop :=
  ((1 ≤ size (upiIds (extracted_intelligence s)))%nat
   ∨ (1 ≤ size (phishingLinks (extracted_intelligence s)))%nat)
  ∧ (1 ≤ turn_count s)%nat.

Definition cond_b (s : Session) : Prop :=
  (2 ≤ turn_count s)%nat
  ∧ (1 ≤ size (upiIds (extracted_intelligence s))
         + size (phishingLinks (extracted_intelligence s))
         + size (bankAccounts (extracted_intelligence s))
         + size (phoneNumbers (extracted_intelligence s)))%nat.

Definition cond_c (s : Session) : Prop := (3 ≤ turn_count s)%nat.

Definition cond_d (settings : Settings) (s : Session) : Prop :=
  (MAX_CONVERSATION_TURNS settings ≤ Z.of_nat (turn_count s))%Z.

Definition fires (settings : Settings) (s : Session) : Prop :=
  cond_a s ∨ cond_b s ∨ cond_c s ∨ cond_d settings s.

(** The early return of [process_message]: a first turn that the
    detector rates no scam with a confidence under 0.1. *)
Definition closes_neutrally (request : IncomingRequest) (w : World) : bool :=
  (stored_turns (sessionId request) w =? 0)%nat
  && (let '(is_scam, confidence, _) :=
        ScamDetector.detect (text (message request)) (conversationHistory request) in
      negb is_scam && (confidence <? 0.1)%float).

(** Pointwise operations on the five collections. *)
Definition intel_union (a b : intel (gset string)) : intel (gset string) :=
  {| upiIds := upiIds a ∪ upiIds b;
     bankAccounts := bankAccounts a ∪ bankAccounts b;
     phoneNumbers := phoneNumbers a ∪ phoneNumbers b;
     phishingLinks := phishingLinks a ∪ phishingLinks b;
     suspiciousKeywords := suspiciousKeywords a ∪ suspiciousKeywords b |}.

Definition intel_sets (e : intel (list string)) : intel (gset string) :=
  {| upiIds := list_to_set (upiIds e);
     bankAccounts := list_to_set (bankAccounts e);
     phoneNumbers := list_to_set (phoneNumbers e);
     phishingLinks := list_to_set (phishingLinks e);
     suspiciousKeywords := list_to_set (suspiciousKeywords e) |}.

Definition intel_subseteq (a b : intel (gset string)) : Prop :=
  upiIds a ⊆ upiIds b ∧ bankAccounts a ⊆ bankAccounts b
  ∧ phoneNumbers a ⊆ phoneNumbers b ∧ phishingLinks a ⊆ phishingLinks b
  ∧ suspiciousKeywords a ⊆ suspiciousKeywords b.

(** What one request contributes to the session [sid]: the extraction
    of its text when it is addressed to [sid] and is engaged with. *)
Definition contribution (sid : string) (request : IncomingRequest) (w : World)
    : intel (gset string) :=
  if bool_decide (sessionId request = sid) && negb (closes_neutrally request w)
  then intel_sets (IntelligenceExtractor.extract (text (message request)))
  else empty_intelligence.

Section Contributions.
Variable settings : Settings.
Variable generate_response : string -> Session -> list Message -> string.

(** The union of the contributions of a sequence of requests served
    from [w]. *)
Fixpoint contributions (sid : string) (requests : list (IncomingRequest * Z))
    (w : World) : intel (gset string) :=
  match requests with
  | [] => empty_intelligence
  | (request, now) :: requests' =>
      intel_union (contribution sid request w)
        (contributions sid requests'
           (fst (process_message settings generate_response request now w)))
  end.
End Contributions.

(** A collection holds no two values that differ only in case. *)
Definition case_insensitively_deduplicated (X : gset string) : Prop :=
  ∀ x y, x ∈ X → y ∈ X → Str.lower x = Str.lower y → x = y.

(** The confidence the classifier gives a category on a message: the
    boosted share of its patterns that match, nothing without a match. *)
Definition confidence_of (patterns : list Re.pattern) (message : string) : float :=
  let matches := ScamDetector.count_matches patterns message in
  if (0 <? matches)%nat
  then ScamDetector.boost (ScamDetector.ratio matches (length patterns))
  else 0%float.

(** A matcher state with [tail] appended to the text of another, and a
    matcher whose outcomes stay, so extended, when [tail] is appended. *)
Definition extends (tail : list ascii) (st1 st2 : Re.mstate) : Prop :=
  Re.before st2 = Re.before st1 ∧ Re.rest st2 = (Re.rest st1 ++ tail)%list.

Definition carries_over (tail : list ascii) (body : Re.mstate → list Re.mstate) : Prop :=
  ∀ st1 st2 st1', extends tail st1 st2 → In st1' (body st1) →
    ∃ st2', In st2' (body st2) ∧ extends tail st1' st2'.

(** [a] is not above [b]. *)
Definition score_le (a b : float) : Prop := (b <? a)%float = false.

(** Every score a category can get: a positive number of its patterns
    over their number. *)
Definition all_scores : list float :=
  flat_map (fun '(_, patterns) =>
              map (fun m => ScamDetector.ratio m (length patterns))
                  (seq 1 (length patterns)))
           ScamDetector.SCAM_PATTERNS.

End Spec.

(** ** Requests and worlds of the specification's scenarios *)

Module Scenario.

(** A first message of a conversation, without history. *)
Definition scammer_says (sid msg : string) : IncomingRequest :=
  {| sessionId := sid;
     message := {| sender := scammer; text := msg; timestamp := 0 |};
     conversationHistory := [] |}.

(** A persona that always gives the same reply. *)
Definition fixed_reply (_ : string) (_ : Session) (_ : list Message) : string :=
  "Hello? Who is this?".

Definition kyc_message : string :=
  "Your SBI KYC expired. Update immediately at bit.ly/fake-kyc".

(** The orchestrator with the default settings and the fixed persona. *)
Definition served (requests : list (IncomingRequest * Z)) : World :=
  ConversationOrchestrator.serve default_settings fixed_reply requests initial_world.

(** The patterns of the KYC category. *)
Definition kyc_patterns : list Re.pattern :=
  snd (nth 1 ScamDetector.SCAM_PATTERNS ("", [])).

End Scenario.

(** ** Invariants of the worlds the orchestrator reaches *)

Module Reachable.
Import Spec.

(** What holds of a stored session: with a turn it is marked as a scam,
    it is finalized by its third turn, and it is not finalized before
    its first. *)
Definition session_ok (s : Session) : Prop :=
  ((1 ≤ turn_count s)%nat → scam_detected s = true)
  ∧ (finalized s = false → (turn_count s ≤ 2)%nat)
  ∧ (finalized s = true → (1 ≤ turn_count s)%nat).

(** What holds of a payload sent for a session as stored now. *)
Definition report_ok (p : FinalResultPayload) (s : Session) : Prop :=
  scamDetected p = true
  ∧ (1 ≤ totalMessagesExchanged p ≤ 3)%nat
  ∧ (totalMessagesExchanged p ≤ turn_count s)%nat
  ∧ finalized s = true
  ∧ intel_subseteq (intel_sets (extractedIntelligence p)) (extracted_intelligence s).

Definition world_ok (w : World) : Prop :=
  (∀ sid s, memory w !! sid = Some s → session_ok s)
  ∧ (∀ p, In p (sent w) →
       ∃ s, memory w !! payload_sessionId p = Some s ∧ report_ok p s).

End Reachable.


(** ** The classifier's arithmetic *)

Module Scoring.
Import ScamDetector.
Local Open Scope float_scope.

(** The confidence that [_rule_based_detection] computes from the
    boosted category confidence and the numbers of urgency, authority,
    action and high-risk keywords found. *)
Definition final_confidence (category_confidence : float)
    (urgency authority action high_risk : nat) : float :=
  let urgency_score := ratio urgency (length URGENCY_KEYWORDS) in
  let authority_score := ratio authority (length AUTHORITY_KEYWORDS) in
  let action_score := ratio action (length SUSPICIOUS_ACTIONS) in
  let signal_score := (urgency_score + authority_score + action_score) / 3 in
  let final_confidence := (category_confidence * 0.7) + (signal_score * 0.3) in
  let final_confidence :=
    if (0.1 <? urgency_score) && (0.05 <? authority_score)
    then fmin 1.0 (final_confidence + 0.15)
    else final_confidence in
  if (2 <=? high_risk)%nat
  then fmin 1.0 (final_confidence + 0.1)
  else final_confidence.

(** The category confidences there can be: none, or a boosted score. *)
Definition category_confidences : list float :=
  0 :: map boost Spec.all_scores.

(** All the confidences the keyword counts allow for a category
    confidence. *)
Definition confidences_of (category_confidence : float) : list float :=
  flat_map (fun urgency =>
    flat_map (fun authority =>
      flat_map (fun action =>
        map (final_confidence category_confidence urgency authority action)
            (seq 0 (S (length high_risk_keywords))))
        (seq 0 (S (length SUSPICIOUS_ACTIONS))))
      (seq 0 (S (length AUTHORITY_KEYWORDS))))
    (seq 0 (S (length URGENCY_KEYWORDS))).

End Scoring.


(** ** The extractor's helpers, by recursion *)

Module Extraction.

(** The items that [_deduplicate] keeps once the lowered values in
    [seen] have been met. *)
Fixpoint first_occurrences (seen : gset string) (items : list string) : list string :=
  match items with
  | [] => []
  | item :: items' =>
      if bool_decide (Str.lower item ∈ seen)
      then first_occurrences seen items'
      else item :: first_occurrences ({[ Str.lower item ]} ∪ seen) items'
  end.

(** The keywords of all categories, in the order of the table. *)
Definition all_keywords : list string :=
  concat (map snd IntelligenceExtractor.KEYWORD_CATEGORIES).

(** The normalized form of a phone number: "+91" before ten digits of
    which the first is 7, 8 or 9. *)
Definition normalized (n : string) : Prop :=
  ∃ c rest, n = "+91" +:+ String c rest
            ∧ String.length (String c rest) = 10%nat
            ∧ (c = "7" ∨ c = "8" ∨ c = "9")%char
            ∧ Forall (fun c => Chars.is_digit c = true)
                (list_ascii_of_string (String c rest)).

End Extraction.


(** ** The Reporter's attempts, in closed form *)

Module Delivery.
Import Callback.

(** An outcome that ends the attempts: the endpoint accepted the
    payload, or refused it as a client error. *)
Definition stops (o : outcome) : bool :=
  match o with
  | Response status_code =>
      (status_code =? 200)%Z || ((400 <=? status_code)%Z && (status_code <? 500)%Z)
  | _ => false
  end.

Definition accepted (o : outcome) : bool :=
  match o with
  | Response status_code => (status_code =? 200)%Z
  | _ => false
  end.

(** The attempts from [first] to [last], with a wait of 2^j seconds
    after every attempt j but the last. *)
Definition trace_from (first last : nat) : list event :=
  flat_map (fun j => if (j <? last)%nat then [Post j; Sleep (2 ^ j)] else [Post j])
           (seq first (S last - first)).

(** The seconds waited in a list of events. *)
Definition seconds_waited (events : list event) : nat :=
  fold_right (fun e total => match e with Sleep s => s + total | Post _ => total end)%nat
             0%nat events.

End Delivery.


(** * Properties of the embedding *)

(** ** The session store *)

Section StoreFacts.
Import SessionMemory.
Implicit Types (sid : string) (sessions : gmap string Session).

Lemma update_session_missing sid data sessions :
  sessions !! sid = None → update_session sid data sessions = sessions.
Proof.
  intros Hnone. unfold update_session.
  rewrite bool_decide_eq_false_2; [done|].
  rewrite elem_of_dom, Hnone. by intros [? ?].
Qed.

Lemma update_session_present sid data sessions :
  is_Some (sessions !! sid) → update_session sid data sessions = <[sid := data]> sessions.
Proof.
  intros Hsome. unfold update_session.
  rewrite bool_decide_eq_true_2; [done|]. by apply elem_of_dom.
Qed.

Lemma get_or_create_stored sid history now sessions :
  get_or_create_session sid history now sessions
  = (<[sid := default (new_session sid history now) (sessions !! sid)]> sessions,
     default (new_session sid history now) (sessions !! sid)).
Proof.
  unfold get_or_create_session.
  destruct (sessions !! sid) as [s|] eqn:Hs; simpl; [|done].
  by rewrite insert_id.
Qed.

End StoreFacts.

(** C10. [update_session] under an identifier that the store does not
    hold leaves the store as it is: no session appears under the
    identifier and no entry changes or goes. *)
Theorem update_session_absent_is_noop (sid : string) (data : Session)
    (sessions : gmap string Session) :
  sessions !! sid = None →
  SessionMemory.update_session sid data sessions = sessions
  ∧ SessionMemory.update_session sid data sessions !! sid = None
  ∧ ∀ other, SessionMemory.update_session sid data sessions !! other = sessions !! other.
Proof.
  intros Hnone. rewrite (update_session_missing _ _ _ Hnone). by repeat split.
Qed.

Lemma update_session_absent_is_noop_witness :
  let stored := SessionMemory.new_session "known" [] 0 in
  let sessions : gmap string Session := {[ "known" := stored ]} in
  SessionMemory.update_session "ghost" stored sessions = sessions
  ∧ SessionMemory.update_session "ghost" stored sessions !! "ghost" = None
  ∧ ∀ other, SessionMemory.update_session "ghost" stored sessions !! other = sessions !! other.
Proof.
  apply (update_session_absent_is_noop "ghost"). vm_compute. reflexivity.
Defined.

(** ** One call of [process_message] *)

Section Pipeline.
Import SessionMemory ConversationOrchestrator Spec.

Variable settings : Settings.
Variable generate_response : string -> Session -> list Message -> string.

Local Abbreviation process := (process_message settings generate_response).
Local Abbreviation serving := (serve settings generate_response).

Lemma detect_first_turn_keeps request s :
  let s1 := fst (detect_first_turn request s) in
  turn_count s1 = turn_count s
  ∧ finalized s1 = finalized s
  ∧ extracted_intelligence s1 = extracted_intelligence s.
Proof.
  unfold detect_first_turn.
  destruct (turn_count s =? 0)%nat; [|done].
  destruct (ScamDetector.detect _ _) as [[is_scam confidence] type].
  destruct is_scam; simpl; [done|].
  by destruct (confidence <? 0.1)%float.
Qed.

Lemma detect_first_turn_early request now w :
  snd (detect_first_turn request (session_at request now w)) = closes_neutrally request w.
Proof.
  unfold detect_first_turn, closes_neutrally, stored_turns, session_at.
  destruct (memory w !! sessionId request) as [s|]; simpl.
  - destruct (turn_count s =? 0)%nat; [|done].
    destruct (ScamDetector.detect _ _) as [[is_scam confidence] type].
    destruct is_scam; simpl; [done|]. by destruct (confidence <? 0.1)%float.
  - destruct (ScamDetector.detect _ _) as [[is_scam confidence] type].
    destruct is_scam; simpl; [done|]. by destruct (confidence <? 0.1)%float.
Qed.

(** The world a call leaves, case by case. *)
Lemma process_message_world request now w :
  let sid := sessionId request in
  let s1 := fst (detect_first_turn request (session_at request now w)) in
  let s2 := session_after_turn request now w in
  fst (process request now w) =
    if closes_neutrally request w
    then {| memory := <[sid := s1]> (memory w); sent := sent w |}
    else if _should_end_conversation settings s2 && negb (finalized s2)
    then {| memory := <[sid := with_finalized s2 now]> (memory w);
            sent := final_payload sid (with_finalized s2 now) :: sent w |}
    else {| memory := <[sid := s2]> (memory w); sent := sent w |}.
Proof.
  intros sid s1 s2. rewrite <- detect_first_turn_early with (now := now).
  subst s1 s2. unfold process_message, session_after_turn, session_at.
  rewrite get_or_create_stored. fold sid.
  set (s0 := default _ (memory w !! sid)).
  destruct (detect_first_turn request s0) as [s1 early].
  assert (Hin : ∀ m : gmap string Session, is_Some (<[sid := s0]> m !! sid))
    by (intros m; rewrite lookup_insert_eq; eauto).
  simpl. destruct early; simpl.
  - rewrite update_session_present by apply Hin.
    by rewrite insert_insert_eq.
  - rewrite update_session_present by apply Hin.
    rewrite insert_insert_eq.
    destruct (_should_end_conversation settings _); simpl; [|done].
    unfold _finalize_and_callback. simpl.
    destruct (finalized s1); simpl; [done|].
    rewrite update_session_present by (rewrite lookup_insert_eq; eauto).
    by rewrite insert_insert_eq.
Qed.

Lemma session_after_turn_turns request now w :
  turn_count (session_after_turn request now w) = (stored_turns (sessionId request) w + 1)%nat.
Proof.
  unfold session_after_turn. simpl.
  destruct (detect_first_turn_keeps request (session_at request now w)) as (-> & _ & _).
  unfold session_at, stored_turns. by destruct (memory w !! sessionId request).
Qed.

Lemma session_after_turn_finalized request now w :
  finalized (session_after_turn request now w) = is_finalized (sessionId request) w.
Proof.
  unfold session_after_turn. simpl.
  destruct (detect_first_turn_keeps request (session_at request now w)) as (_ & -> & _).
  unfold session_at, is_finalized. by destruct (memory w !! sessionId request).
Qed.

Lemma session_after_turn_intelligence request now w :
  extracted_intelligence (session_after_turn request now w)
  = _merge_intelligence (accumulated (sessionId request) w)
      (IntelligenceExtractor.extract (text (message request))).
Proof.
  unfold session_after_turn. simpl.
  destruct (detect_first_turn_keeps request (session_at request now w)) as (_ & _ & ->).
  unfold session_at, accumulated. by destruct (memory w !! sessionId request).
Qed.

(** *** The termination predicate *)

Lemma end_condition_cases (s : Session) :
  match end_condition settings s with
  | Some CriticalIntelligence => cond_a s
  | Some AnyEntity => ¬ cond_a s ∧ cond_b s
  | Some SufficientEngagement => ¬ cond_a s ∧ ¬ cond_b s ∧ cond_c s
  | Some MaxTurns => ¬ cond_a s ∧ ¬ cond_b s ∧ ¬ cond_c s ∧ cond_d settings s
  | None => ¬ cond_a s ∧ ¬ cond_b s ∧ ¬ cond_c s ∧ ¬ cond_d settings s
  end.
Proof.
  unfold end_condition, cond_a, cond_b, cond_c, cond_d.
  repeat match goal with
  | |- context [(?a <? ?b)%nat] => destruct (Nat.ltb_spec a b)
  | |- context [(?a <=? ?b)%nat] => destruct (Nat.leb_spec a b)
  | |- context [(?a <=? ?b)%Z] => destruct (Z.leb_spec a b)
  end; simpl; lia.
Qed.

Lemma should_end_fires (s : Session) :
  _should_end_conversation settings s = true ↔ fires settings s.
Proof.
  unfold _should_end_conversation, fires.
  pose proof (end_condition_cases s) as H.
  destruct (end_condition settings s) as [[]|]; split; intros; try done; tauto.
Qed.


Lemma process_message_neutral request now w :
  closes_neutrally request w = true →
  fst (process request now w)
  = {| memory := <[sessionId request :=
                     fst (detect_first_turn request (session_at request now w))]> (memory w);
       sent := sent w |}.
Proof. intros H. by rewrite process_message_world, H. Qed.

Lemma process_message_engaged request now w :
  closes_neutrally request w = false →
  fst (process request now w)
  = if _should_end_conversation settings (session_after_turn request now w)
       && negb (is_finalized (sessionId request) w)
    then {| memory := <[sessionId request :=
                          with_finalized (session_after_turn request now w) now]> (memory w);
            sent := final_payload (sessionId request)
                      (with_finalized (session_after_turn request now w) now) :: sent w |}
    else {| memory := <[sessionId request := session_after_turn request now w]> (memory w);
            sent := sent w |}.
Proof.
  intros H. rewrite process_message_world, H.
  by rewrite session_after_turn_finalized.
Qed.

Lemma is_finalized_insert sid s m log :
  is_finalized sid {| memory := <[sid := s]> m; sent := log |} = finalized s.
Proof. unfold is_finalized. simpl. by rewrite lookup_insert_eq. Qed.

(** C3. After the turn-count increment the predicate holds exactly
    when one of the conditions a to d holds, the logged condition is the
    first of them in that order, and the turn reports to the Reporter
    exactly when the predicate holds on a session not finalized before;
    when none of a to d holds nothing is finalized or reported. *)
Theorem termination_policy :
  (∀ s : Session,
      (_should_end_conversation settings s = true ↔ fires settings s)
      ∧ (end_condition settings s = Some CriticalIntelligence ↔ cond_a s)
      ∧ (end_condition settings s = Some AnyEntity ↔ ¬ cond_a s ∧ cond_b s)
      ∧ (end_condition settings s = Some SufficientEngagement
         ↔ ¬ cond_a s ∧ ¬ cond_b s ∧ cond_c s)
      ∧ (end_condition settings s = Some MaxTurns
         ↔ ¬ cond_a s ∧ ¬ cond_b s ∧ ¬ cond_c s ∧ cond_d settings s)
      ∧ (end_condition settings s = None ↔ ¬ fires settings s))
  ∧ (∀ request now w,
       closes_neutrally request w = false →
       let sid := sessionId request in
       let s := session_after_turn request now w in
       let w' := fst (process request now w) in
       (fires settings s → is_finalized sid w' = true)
       ∧ (fires settings s ∧ is_finalized sid w = false →
          sent w' = final_payload sid (with_finalized s now) :: sent w)
       ∧ (¬ fires settings s →
          sent w' = sent w ∧ is_finalized sid w' = is_finalized sid w)).
Proof.
  split.
  - intros s. split; [apply should_end_fires|].
    pose proof (end_condition_cases s) as H. unfold fires.
    destruct (end_condition settings s) as [[]|];
      split_and !; (split; intros ?); try done; tauto.
  - intros request now w Hengaged sid s w'.
    pose proof (should_end_fires s) as Hfires.
    pose proof (session_after_turn_finalized request now w) as Hfin.
    subst w'. rewrite (process_message_engaged _ _ _ Hengaged).
    fold sid s in Hfin |- *.
    destruct (_should_end_conversation settings s) eqn:Hend;
      destruct (is_finalized sid w) eqn:Hbefore; simpl;
      rewrite is_finalized_insert; simpl;
      split_and !; intros; try done; try (exfalso; intuition congruence).
Qed.


(** *** Turn counts *)

Lemma stored_turns_insert sid s m log :
  stored_turns sid {| memory := <[sid := s]> m; sent := log |} = turn_count s.
Proof. unfold stored_turns. simpl. by rewrite lookup_insert_eq. Qed.

Lemma process_message_other request now w other :
  other ≠ sessionId request →
  memory (fst (process request now w)) !! other = memory w !! other.
Proof.
  intros Hne. rewrite process_message_world.
  repeat match goal with |- context [if ?b then _ else _] => destruct b end;
    simpl; by rewrite lookup_insert_ne.
Qed.

(** C7, as the code has it. A processed message adds exactly one to
    the turn count of its session unless it takes the neutral closing
    return, which leaves the count at 0; no other session's count
    moves. *)
Theorem turn_count_per_message (request : IncomingRequest) (now : Z) (w : World) :
  let sid := sessionId request in
  let w' := fst (process request now w) in
  stored_turns sid w'
  = (if closes_neutrally request w then 0 else stored_turns sid w + 1)%nat
  ∧ (closes_neutrally request w = true → stored_turns sid w = 0%nat)
  ∧ (∀ other, other ≠ sid → stored_turns other w' = stored_turns other w).
Proof.
  intros sid w'. split_and !.
  - subst w'. destruct (closes_neutrally request w) eqn:Hn.
    + rewrite (process_message_neutral _ _ _ Hn), stored_turns_insert.
      destruct (detect_first_turn_keeps request (session_at request now w)) as (-> & _).
      unfold closes_neutrally in Hn. apply andb_prop in Hn as [Hz _].
      apply Nat.eqb_eq in Hz. fold sid in Hz.
      unfold session_at, stored_turns in *. fold sid.
      by destruct (memory w !! sid).
    + rewrite (process_message_engaged _ _ _ Hn).
      destruct (_ && _); rewrite stored_turns_insert; simpl;
        apply session_after_turn_turns.
  - unfold closes_neutrally. intros [Hz _]%andb_prop. by apply Nat.eqb_eq in Hz.
  - intros other Hne. unfold stored_turns. subst w'.
    by rewrite process_message_other.
Qed.

(** *** Finalization *)

Lemma reports_for_cons sid p w m :
  reports_for sid {| memory := m; sent := p :: sent w |}
  = if bool_decide (payload_sessionId p = sid)
    then p :: reports_for sid w else reports_for sid w.
Proof. unfold reports_for. simpl. by destruct (bool_decide _). Qed.

Lemma is_finalized_other sid other s m log :
  other ≠ sid →
  is_finalized other {| memory := <[sid := s]> m; sent := log |}
  = from_option finalized false (m !! other).
Proof. intros. unfold is_finalized. simpl. by rewrite lookup_insert_ne. Qed.

(** The flag of a session never goes back. *)
Lemma finalized_stays_step request now w sid :
  is_finalized sid w = true → is_finalized sid (fst (process request now w)) = true.
Proof.
  intros Hfin. destruct (decide (sid = sessionId request)) as [->|Hne].
  - destruct (closes_neutrally request w) eqn:Hn.
    + rewrite (process_message_neutral _ _ _ Hn), is_finalized_insert.
      destruct (detect_first_turn_keeps request (session_at request now w)) as (_ & -> & _).
      unfold session_at, is_finalized in *.
      by destruct (memory w !! sessionId request).
    + rewrite (process_message_engaged _ _ _ Hn), Hfin. rewrite andb_false_r.
      by rewrite is_finalized_insert, session_after_turn_finalized.
  - unfold is_finalized in *. by rewrite process_message_other.
Qed.

(** A call leaves the reports of a finalized session alone. *)
Lemma reports_stay_step request now w sid :
  is_finalized sid w = true →
  reports_for sid (fst (process request now w)) = reports_for sid w.
Proof.
  intros Hfin. rewrite process_message_world.
  destruct (closes_neutrally request w); [done|].
  rewrite session_after_turn_finalized.
  destruct (_ && _) eqn:Hgo; [|done].
  rewrite reports_for_cons. simpl.
  case_bool_decide as Heq; [|done]. subst sid.
  rewrite Hfin in Hgo. by rewrite andb_false_r in Hgo.
Qed.

Lemma reported_once_step request now w :
  reported_once w → reported_once (fst (process request now w)).
Proof.
  intros Hw sid. specialize (Hw sid).
  destruct (is_finalized sid w) eqn:Hfin.
  - by rewrite finalized_stays_step, reports_stay_step.
  - rewrite process_message_world.
    destruct (closes_neutrally request w) eqn:Hn.
    + replace (is_finalized sid _) with false; [done|].
      symmetry. destruct (decide (sid = sessionId request)) as [->|Hne].
      * rewrite is_finalized_insert.
        destruct (detect_first_turn_keeps request (session_at request now w))
          as (_ & -> & _).
        unfold session_at, is_finalized in *.
        by destruct (memory w !! sessionId request).
      * by rewrite is_finalized_other.
    + rewrite session_after_turn_finalized.
      destruct (decide (sid = sessionId request)) as [->|Hne].
      * rewrite Hfin, andb_true_r.
        destruct (_should_end_conversation _ _).
        -- rewrite reports_for_cons, is_finalized_insert. simpl.
           rewrite bool_decide_eq_true_2 by done. simpl. by rewrite Hw.
        -- rewrite is_finalized_insert, session_after_turn_finalized, Hfin.
           exact Hw.
      * destruct (_ && _).
        -- rewrite reports_for_cons, is_finalized_other by done. simpl.
           rewrite bool_decide_eq_false_2 by done.
           unfold is_finalized in Hfin. by rewrite Hfin.
        -- rewrite is_finalized_other by done.
           unfold is_finalized in Hfin. by rewrite Hfin.
Qed.

Lemma serve_app requests more w :
  serving (requests ++ more) w = serving more (serving requests w).
Proof. unfold serve. apply fold_left_app. Qed.

Lemma reported_once_serve requests w :
  reported_once w → reported_once (serving requests w).
Proof.
  revert w. induction requests as [|[request now] requests IH]; intros w Hw; [done|].
  simpl. apply IH. by apply reported_once_step.
Qed.

Lemma finalized_stays_serve requests w sid :
  is_finalized sid w = true →
  is_finalized sid (serving requests w) = true
  ∧ reports_for sid (serving requests w) = reports_for sid w.
Proof.
  revert w. induction requests as [|[request now] requests IH]; intros w Hw; [done|].
  simpl. destruct (IH (fst (process request now w))) as [H1 H2].
  - by apply finalized_stays_step.
  - split; [done|]. rewrite H2. by apply reports_stay_step.
Qed.

Lemma reported_once_initial : reported_once initial_world.
Proof. intros sid. reflexivity. Qed.

(** C1. Whatever requests the orchestrator has served and goes on to
    serve, the Reporter has been called at most once for a session
    (once when the session is finalized, not at all before), and a
    finalized session stays finalized with its one report however
    often the termination predicate is evaluated again. *)
Theorem finalization_happens_once
    (requests more : list (IncomingRequest * Z)) (sid : string) :
  let w := serving requests initial_world in
  let w' := serving (requests ++ more) initial_world in
  (length (reports_for sid w) ≤ 1)%nat
  ∧ length (reports_for sid w) = (if is_finalized sid w then 1 else 0)%nat
  ∧ (is_finalized sid w = true →
     is_finalized sid w' = true ∧ reports_for sid w' = reports_for sid w).
Proof.
  intros w w'.
  pose proof (reported_once_serve requests initial_world reported_once_initial sid) as H.
  fold w in H. split_and !.
  - rewrite H. destruct (is_finalized sid w); lia.
  - exact H.
  - intros Hfin. subst w'. rewrite serve_app. by apply finalized_stays_serve.
Qed.


(** *** Accumulated intelligence *)

Lemma accumulated_insert sid s m log :
  accumulated sid {| memory := <[sid := s]> m; sent := log |} = extracted_intelligence s.
Proof. unfold accumulated. simpl. by rewrite lookup_insert_eq. Qed.

Lemma intel_union_empty_r a : intel_union a empty_intelligence = a.
Proof.
  destruct a. unfold intel_union, empty_intelligence. simpl.
  f_equal; apply (right_id_L ∅ (∪)).
Qed.

Lemma intel_union_empty_l a : intel_union empty_intelligence a = a.
Proof.
  destruct a. unfold intel_union, empty_intelligence. simpl.
  f_equal; apply (left_id_L ∅ (∪)).
Qed.

Lemma intel_union_assoc a b c :
  intel_union a (intel_union b c) = intel_union (intel_union a b) c.
Proof. unfold intel_union. simpl. f_equal; apply (assoc_L (∪)). Qed.

Lemma intel_subseteq_union a b : intel_subseteq a (intel_union a b).
Proof. unfold intel_subseteq, intel_union. simpl. split_and !; set_solver. Qed.

(** One call adds the request's contribution, by set union on the
    exact strings, and nothing else. *)
Lemma accumulated_step request now w sid :
  accumulated sid (fst (process request now w))
  = intel_union (accumulated sid w) (contribution sid request w).
Proof.
  unfold contribution.
  destruct (decide (sessionId request = sid)) as [<-|Hne].
  - rewrite bool_decide_eq_true_2 by done. simpl.
    destruct (closes_neutrally request w) eqn:Hn; simpl.
    + rewrite (process_message_neutral _ _ _ Hn), accumulated_insert.
      destruct (detect_first_turn_keeps request (session_at request now w))
        as (_ & _ & ->).
      rewrite intel_union_empty_r.
      unfold session_at, accumulated. by destruct (memory w !! sessionId request).
    + rewrite (process_message_engaged _ _ _ Hn).
      destruct (_ && _); rewrite accumulated_insert;
        cbn [with_finalized extracted_intelligence];
        by rewrite session_after_turn_intelligence.
  - rewrite bool_decide_eq_false_2 by done. simpl.
    rewrite intel_union_empty_r. unfold accumulated.
    by rewrite process_message_other.
Qed.

Lemma accumulated_serve requests w sid :
  accumulated sid (serving requests w)
  = intel_union (accumulated sid w) (contributions settings generate_response sid requests w).
Proof.
  revert w. induction requests as [|[request now] requests IH]; intros w; simpl.
  - by rewrite intel_union_empty_r.
  - by rewrite IH, accumulated_step, intel_union_assoc.
Qed.

(** C2, as the code has it. Each accumulated collection is the union,
    on the exact strings, of what the engaged turns of the session
    extracted, one call adds the extraction of its message to it, and
    nothing that is in a collection ever leaves it. *)
Theorem accumulation_is_exact_union
    (requests more : list (IncomingRequest * Z)) (sid : string) :
  let w := serving requests initial_world in
  accumulated sid w = contributions settings generate_response sid requests initial_world
  ∧ (∀ request now,
       accumulated sid (fst (process request now w))
       = intel_union (accumulated sid w) (contribution sid request w))
  ∧ intel_subseteq (accumulated sid w)
      (accumulated sid (serving (requests ++ more) initial_world)).
Proof.
  intros w. split_and !.
  - subst w. rewrite accumulated_serve. apply intel_union_empty_l.
  - intros request now. apply accumulated_step.
  - rewrite serve_app. fold w. rewrite (accumulated_serve more w).
    apply intel_subseteq_union.
Qed.

End Pipeline.

(** ** Witnesses and counterexamples of the pipeline properties *)

Section PipelineExamples.
Import SessionMemory ConversationOrchestrator Spec Scenario.

Lemma termination_policy_witness :
  let request := scammer_says "s1" kyc_message in
  let s := session_after_turn request 7 initial_world in
  let w' := fst (process_message default_settings fixed_reply request 7 initial_world) in
  is_finalized "s1" w' = true
  ∧ sent w' = [final_payload "s1" (with_finalized s 7)].
Proof.
  destruct (termination_policy default_settings fixed_reply) as [Hpred Hturn].
  destruct (Hturn (scammer_says "s1" kyc_message) 7%Z initial_world) as (Hfin & Hsent & _).
  - vm_compute. reflexivity.
  - assert (Hfires : fires default_settings
                       (session_after_turn (scammer_says "s1" kyc_message) 7 initial_world)).
    { apply Hpred. vm_compute. reflexivity. }
    split.
    + exact (Hfin Hfires).
    + apply Hsent. split; [exact Hfires|]. vm_compute. reflexivity.
Defined.

(** C7 as stated fails: a first message that is closed neutrally
    leaves the turn count of its session at 0. *)
Lemma turn_count_not_incremented_on_neutral_close :
  let request := scammer_says "s1" "hello" in
  let w' := fst (process_message default_settings fixed_reply request 7 initial_world) in
  snd (process_message default_settings fixed_reply request 7 initial_world)
  = {| reply := neutral_reply |}
  ∧ stored_turns "s1" initial_world = 0%nat
  ∧ stored_turns "s1" w' = 0%nat
  ∧ stored_turns "s1" w' ≠ (stored_turns "s1" initial_world + 1)%nat.
Proof. vm_compute. split_and !; trivial. discriminate. Qed.

Lemma turn_count_per_message_witness :
  stored_turns "s1"
    (fst (process_message default_settings fixed_reply
            (scammer_says "s1" kyc_message) 7 initial_world)) = 1%nat
  ∧ stored_turns "s1"
      (fst (process_message default_settings fixed_reply
              (scammer_says "s1" "hello") 7 initial_world)) = 0%nat.
Proof.
  split.
  - destruct (turn_count_per_message default_settings fixed_reply
                (scammer_says "s1" kyc_message) 7%Z initial_world) as [H _].
    etransitivity; [exact H|]. vm_compute. reflexivity.
  - destruct (turn_count_per_message default_settings fixed_reply
                (scammer_says "s1" "hello") 7%Z initial_world) as [H _].
    etransitivity; [exact H|]. vm_compute. reflexivity.
Defined.

Lemma finalization_happens_once_witness :
  let first := [(scammer_says "s1" kyc_message, 7%Z)] in
  let more := [(scammer_says "s1" "pay the fee now", 8%Z);
               (scammer_says "s1" "last warning", 9%Z)] in
  is_finalized "s1" (served (first ++ more)) = true
  ∧ reports_for "s1" (served (first ++ more)) = reports_for "s1" (served first).
Proof.
  apply (finalization_happens_once default_settings fixed_reply
           [(scammer_says "s1" kyc_message, 7%Z)]).
  vm_compute. reflexivity.
Defined.

(** C2 as stated fails: two turns that give the same link in
    different case leave both spellings in the accumulated links,
    while a union that is deduplicated case-insensitively would hold
    one. *)
Lemma merge_is_case_sensitive :
  let turns := [(scammer_says "s1" "Your KYC expired. Update at http://A.com/x", 7%Z);
                (scammer_says "s1" "http://a.com/x", 8%Z)] in
  let links := phishingLinks (accumulated "s1" (served turns)) in
  IntelligenceExtractor.extract "Your KYC expired. Update at http://A.com/x"
    = Intel [] [] [] ["http://A.com"] ["expire"; "update"]
  ∧ IntelligenceExtractor.extract "http://a.com/x" = Intel [] [] [] ["http://a.com"] []
  ∧ links = {[ "http://A.com"; "http://a.com" ]}
  ∧ ¬ case_insensitively_deduplicated links.
Proof.
  intros turns links.
  assert (Hlinks : links = {[ "http://A.com"; "http://a.com" ]})
    by (vm_compute; reflexivity).
  split; [vm_compute; reflexivity|].
  split; [vm_compute; reflexivity|].
  split; [exact Hlinks|].
  rewrite Hlinks. intros Hdedup.
  specialize (Hdedup "http://A.com" "http://a.com").
  assert (Hne : "http://A.com" ≠ "http://a.com") by discriminate.
  apply Hne, Hdedup; [set_solver | set_solver | vm_compute; reflexivity].
Qed.

Lemma accumulation_is_exact_union_witness :
  let turns := [(scammer_says "s1" "Your KYC expired. Update at http://A.com/x", 7%Z)] in
  let more := [(scammer_says "s1" "http://a.com/x", 8%Z)] in
  intel_subseteq (accumulated "s1" (served turns)) (accumulated "s1" (served (turns ++ more))).
Proof.
  apply (accumulation_is_exact_union default_settings fixed_reply
           [(scammer_says "s1" "Your KYC expired. Update at http://A.com/x", 7%Z)]
           [(scammer_says "s1" "http://a.com/x", 8%Z)] "s1").
Defined.

End PipelineExamples.

(** ** The extractor on the specification's examples *)

Section ExtractorExamples.
Import IntelligenceExtractor.

(** C5, on the code. Of the handle in "send to rahul.k@paytm now" the
    extractor returns the text of the pattern's one group, the
    provider suffix; an address with an unlisted suffix gives
    nothing. *)
Theorem upi_extraction_returns_provider_suffix :
  Re.findall PATTERNS.upiIds "send to rahul.k@paytm now" = ["paytm"]
  ∧ upiIds (extract "send to rahul.k@paytm now") = ["paytm"]
  ∧ validate_upi "rahul.k@paytm" = true
  ∧ upiIds (extract "contact me at office@company.com") = [].
Proof. vm_compute. repeat split. Qed.

Lemma starts_with_789 (d : string) :
  String.length d = 10%nat →
  Str.contains (String.substring 0 1 d) "789" = true →
  ∃ c rest, d = String c rest ∧ (c = "7" ∨ c = "8" ∨ c = "9")%char.
Proof.
  destruct d as [|c rest]; [discriminate|].
  intros _ H. exists c, rest. split; [done|].
  simpl in H. destruct rest; simpl in H;
    unfold Str.contains in H; simpl in H;
    repeat match type of H with
    | context [Ascii.eqb ?a ?b] =>
        destruct (Ascii.eqb_spec a b); [subst; tauto|]
    end; discriminate.
Qed.

Lemma digits_of_sub (s : string) :
  Forall (fun c => Chars.is_digit c = true) (list_ascii_of_string (Re.sub_non_digits s)).
Proof.
  unfold Re.sub_non_digits. rewrite list_ascii_of_string_of_list_ascii.
  apply Forall_forall. intros c Hc%list_elem_of_In. by apply filter_In in Hc as [_ ?].
Qed.

Lemma digits_of_drop (n : nat) (s : string) :
  Forall (fun c => Chars.is_digit c = true) (list_ascii_of_string s) →
  Forall (fun c => Chars.is_digit c = true) (list_ascii_of_string (Str.drop n s)).
Proof.
  intros H. unfold Str.drop. rewrite list_ascii_of_string_of_list_ascii.
  by apply Forall_drop.
Qed.

(** What [normalize_phone] lets through here: "+91" before exactly ten
    digits 0-9 of which the first is 7, 8 or 9. *)
Lemma normalize_phone_accepts (phone n : string) :
  normalize_phone phone = Some n →
  ∃ c rest, n = "+91" +:+ String c rest
            ∧ String.length (String c rest) = 10%nat
            ∧ (c = "7" ∨ c = "8" ∨ c = "9")%char
            ∧ Forall (fun c => Chars.is_digit c = true)
                (list_ascii_of_string (String c rest)).
Proof.
  unfold normalize_phone.
  set (d0 := Re.sub_non_digits phone).
  set (d1 := if Str.startswith d0 "0" then Str.drop 1 d0 else d0).
  set (d2 := if Str.startswith d1 "91" && (10 <? String.length d1)%nat
             then Str.drop 2 d1 else d1).
  assert (Hd : Forall (fun c => Chars.is_digit c = true) (list_ascii_of_string d2)).
  { subst d2 d1. repeat match goal with |- context [if ?b then _ else _] => destruct b end;
      repeat apply digits_of_drop; apply digits_of_sub. }
  destruct (String.length d2 =? 10)%nat eqn:Hlen; simpl; [|discriminate].
  destruct (Str.contains _ _) eqn:Hfirst; [|discriminate].
  intros [= <-]. apply Nat.eqb_eq in Hlen.
  destruct (starts_with_789 _ Hlen Hfirst) as (c & rest & Heq & Hc).
  exists c, rest. clearbody d2. subst d2. split_and !; [reflexivity | exact Hlen | exact Hc | exact Hd].
Qed.

(** C8. The three spellings of one number normalize to "+919876543210",
    as inputs of [_normalize_phones] and as texts given to [extract];
    "12345" gives no match and no number; of an ASCII input, what the
    normalization lets through is "+91" before ten digits 0-9 that
    start with 7, 8 or 9. *)
Theorem phone_normalization :
  _normalize_phones ["+91 9876543210"] = ["+919876543210"]
  ∧ _normalize_phones ["09876543210"] = ["+919876543210"]
  ∧ _normalize_phones ["919876543210"] = ["+919876543210"]
  ∧ phoneNumbers (extract "+91 9876543210") = ["+919876543210"]
  ∧ phoneNumbers (extract "09876543210") = ["+919876543210"]
  ∧ phoneNumbers (extract "919876543210") = ["+919876543210"]
  ∧ phoneNumbers (extract "+91 9876543210 or 09876543210 or 919876543210")
    = ["+919876543210"]
  ∧ Re.findall PATTERNS.phoneNumbers "12345" = []
  ∧ _normalize_phones ["12345"] = []
  ∧ phoneNumbers (extract "12345") = []
  ∧ (∀ phone n, Str.isascii phone = true → normalize_phone phone = Some n →
       ∃ c rest, n = "+91" +:+ String c rest
                 ∧ String.length (String c rest) = 10%nat
                 ∧ (c = "7" ∨ c = "8" ∨ c = "9")%char
                 ∧ Forall (fun c => Chars.is_digit c = true)
                     (list_ascii_of_string (String c rest))).
Proof.
  split_and !; try (vm_compute; reflexivity).
  intros phone n _. apply normalize_phone_accepts.
Qed.

Lemma phone_normalization_witness :
  ∃ c rest, "+919876543210" = "+91" +:+ String c rest
            ∧ String.length (String c rest) = 10%nat
            ∧ (c = "7" ∨ c = "8" ∨ c = "9")%char
            ∧ Forall (fun c => Chars.is_digit c = true)
                (list_ascii_of_string (String c rest)).
Proof.
  destruct phone_normalization as (_ & _ & _ & _ & _ & _ & _ & _ & _ & _ & Haccepts).
  apply (Haccepts "+91 98765-43210"); vm_compute; reflexivity.
Defined.

End ExtractorExamples.

(** ** The classifier's decision *)

Section Classifier.
Import ScamDetector.
Local Open Scope float_scope.

(** The scores are those of the categories with a match, in the order
    of the table. *)
Lemma scores_fold (message : string) (categories : list (string * list Re.pattern))
    (scores : list (string * float)) :
  fold_left
    (fun scores '(category, patterns) =>
       let matches := count_matches patterns message in
       if (0 <? matches)%nat
       then (scores ++ [(category, ratio matches (length patterns))])%list
       else scores)
    categories scores
  = (scores
     ++ flat_map
          (fun '(category, patterns) =>
             if (0 <? count_matches patterns message)%nat
             then [(category, ratio (count_matches patterns message) (length patterns))]
             else [])
          categories)%list.
Proof.
  revert scores. induction categories as [|[category patterns] rest IH]; intros scores.
  - simpl. by rewrite app_nil_r.
  - simpl. rewrite IH. destruct (0 <? _)%nat; simpl; [|done].
    by rewrite <- app_assoc.
Qed.

Lemma category_scores_flat (message : string) :
  category_scores message
  = flat_map
      (fun '(category, patterns) =>
         if (0 <? count_matches patterns message)%nat
         then [(category, ratio (count_matches patterns message) (length patterns))]
         else [])
      SCAM_PATTERNS.
Proof. unfold category_scores. by rewrite scores_fold. Qed.

Lemma no_scores_no_match (message : string) :
  category_scores message = [] ↔
  ∀ category patterns,
    In (category, patterns) SCAM_PATTERNS → count_matches patterns message = 0%nat.
Proof.
  rewrite category_scores_flat. generalize SCAM_PATTERNS as categories.
  induction categories as [|[category patterns] rest IH]; simpl.
  - split; [intros _ ? ? []|done].
  - destruct (Nat.ltb_spec 0 (count_matches patterns message)) as [Hpos|Hzero]; simpl.
    + split; [discriminate|]. intros H.
      specialize (H category patterns (or_introl eq_refl)). lia.
    + rewrite IH. split.
      * intros H c ps [[= <- <-]|Hin]; [lia|exact (H c ps Hin)].
      * intros H c ps Hin. apply (H c ps). by right.
Qed.

(** C6, as the code has it. The message is a scam exactly when the
    confidence exceeds 0.2, or exceeds 0.1 with a history; the
    confidence returned is the computed one; the label returned is
    the computed category (the generic one when no pattern matched)
    for a scam and "NONE" otherwise. *)
Theorem decision_policy (message : string) (history : list Message) :
  let r := _rule_based_detection message in
  let '(is_scam, returned_confidence, label) := detect message history in
  (is_scam = true ↔
     (0.2 <? confidence r) = true ∨ (history ≠ [] ∧ (0.1 <? confidence r) = true))
  ∧ returned_confidence = confidence r
  ∧ label = (if is_scam then scam_type r else "NONE"%string)
  ∧ ((∀ category patterns,
        In (category, patterns) SCAM_PATTERNS → count_matches patterns message = 0%nat) →
     scam_type r = "GENERIC_FRAUD"%string).
Proof.
  intros r. unfold detect. fold r.
  assert (Hgeneric :
    (∀ category patterns,
        In (category, patterns) SCAM_PATTERNS → count_matches patterns message = 0%nat) →
    scam_type r = "GENERIC_FRAUD"%string).
  { intros Hnone%no_scores_no_match. subst r. unfold _rule_based_detection.
    by rewrite Hnone. }
  destruct (0.2 <? confidence r) eqn:Hhigh.
  - split_and !; try done. split; [by left|done].
  - destruct (bool_decide (history = [])) eqn:Hhist; simpl.
    + apply bool_decide_eq_true in Hhist.
      split_and !; try done. split; [done|]. intros [?|[? _]]; done.
    + apply bool_decide_eq_false in Hhist.
      destruct (0.1 <? confidence r) eqn:Hlow.
      * split_and !; try done. split; [by right|done].
      * split_and !; try done. split; [done|]. intros [?|[_ ?]]; done.
Qed.

(** C6 as stated fails: for a message that is no scam the label
    returned is "NONE", not the computed category. *)
Lemma non_scam_label_is_none :
  detect "hello" [] = (false, 0, "NONE"%string)
  ∧ scam_type (_rule_based_detection "hello") = "GENERIC_FRAUD"%string
  ∧ snd (detect "hello" []) ≠ scam_type (_rule_based_detection "hello").
Proof. vm_compute. split_and !; trivial. discriminate. Qed.

Lemma decision_policy_witness :
  scam_type (_rule_based_detection "hello") = "GENERIC_FRAUD"%string.
Proof.
  pose proof (decision_policy "hello" []) as H.
  destruct (detect "hello" []) as [[is_scam returned] label].
  apply H. intros category patterns Hin.
  repeat (destruct Hin as [[= <- <-]|Hin]; [vm_compute; reflexivity|]).
  destruct Hin.
Defined.

End Classifier.

(** ** The end-to-end scenario *)

Section EndToEnd.
Import SessionMemory ConversationOrchestrator Spec Scenario.

(** C4, on the code. The KYC message, sent as the first message of a
    session the store does not hold yet, is classified as a scam of the
    KYC category; the session then has turn count 1; condition (a) ends
    the conversation, and the Reporter is called once, with
    totalMessagesExchanged = 1. The one accumulated link is not
    "http://bit.ly/fake-kyc": of the shortened link [findall] returns
    the text of the pattern's one group, the domain, and the link
    rebuilt from it is "http://bit.ly". *)
Theorem kyc_scenario (settings : Settings)
    (generate_response : string -> Session -> list Message -> string)
    (sid : string) (sent_at now : Z) (w : World) :
  memory w !! sid = None →
  let request :=
    {| sessionId := sid;
       message := {| sender := scammer; text := kyc_message; timestamp := sent_at |};
       conversationHistory := [] |} in
  let w' := fst (process_message settings generate_response request now w) in
  fst (fst (ScamDetector.detect kyc_message [])) = true
  ∧ snd (ScamDetector.detect kyc_message []) = "KYC_FRAUD"
  ∧ (∃ s, memory w' !! sid = Some s
          ∧ scam_detected s = true ∧ scam_type s = "KYC_FRAUD"
          ∧ turn_count s = 1%nat ∧ finalized s = true)
  ∧ stored_turns sid w' = 1%nat
  ∧ Re.findall IntelligenceExtractor.PATTERNS.shortenedLinks kyc_message = ["bit.ly"]
  ∧ phishingLinks (IntelligenceExtractor.extract kyc_message) = ["http://bit.ly"]
  ∧ phishingLinks (accumulated sid w') = {[ "http://bit.ly" ]}
  ∧ "http://bit.ly/fake-kyc" ∉ phishingLinks (accumulated sid w')
  ∧ end_condition settings (session_after_turn request now w) = Some CriticalIntelligence
  ∧ (∃ payload, sent w' = payload :: sent w
                ∧ payload_sessionId payload = sid
                ∧ totalMessagesExchanged payload = 1%nat
                ∧ scamDetected payload = true).
Proof.
  intros Hfresh request w'.
  assert (Hengaged : closes_neutrally request w = false).
  { unfold closes_neutrally, stored_turns.
    change (sessionId request) with sid. rewrite Hfresh. vm_compute. reflexivity. }
  assert (Hafter : session_after_turn request now w
                   = with_turn
                       (with_detection (new_session sid [] now) true
                          (snd (fst (ScamDetector.detect kyc_message []))) "KYC_FRAUD")
                       (intel_sets (IntelligenceExtractor.extract kyc_message))
                       1 now).
  { unfold session_after_turn, session_at.
    change (sessionId request) with sid. rewrite Hfresh. vm_compute. reflexivity. }
  assert (Hcond : end_condition settings (session_after_turn request now w)
                  = Some CriticalIntelligence).
  { rewrite Hafter. vm_compute. reflexivity. }
  assert (Hw' : w' = {| memory := <[sid := with_finalized (session_after_turn request now w) now]>
                                    (memory w);
                        sent := final_payload sid
                                  (with_finalized (session_after_turn request now w) now)
                                :: sent w |}).
  { subst w'. rewrite (process_message_engaged _ _ _ _ _ Hengaged).
    unfold _should_end_conversation. rewrite Hcond.
    unfold is_finalized. change (sessionId request) with sid. by rewrite Hfresh. }
  split; [vm_compute; reflexivity|].
  split; [vm_compute; reflexivity|].
  split.
  { eexists. rewrite Hw'. cbn [memory]. rewrite lookup_insert_eq. split; [reflexivity|].
    rewrite Hafter. vm_compute. repeat split. }
  split.
  { rewrite Hw', stored_turns_insert, Hafter. reflexivity. }
  assert (Hlinks : phishingLinks (accumulated sid w') = {[ "http://bit.ly" ]}).
  { rewrite Hw', accumulated_insert, Hafter. vm_compute. reflexivity. }
  split; [vm_compute; reflexivity|].
  split; [vm_compute; reflexivity|].
  split; [exact Hlinks|].
  split.
  { rewrite Hlinks. intros Hin%elem_of_singleton. discriminate. }
  split; [exact Hcond|].
  eexists. rewrite Hw'. cbn [sent]. split; [reflexivity|].
  rewrite Hafter. vm_compute. repeat split.
Qed.

Lemma kyc_scenario_witness :
  let w' := fst (process_message default_settings fixed_reply
                   (scammer_says "s1" kyc_message) 7 initial_world) in
  stored_turns "s1" w' = 1%nat
  ∧ phishingLinks (accumulated "s1" w') = {[ "http://bit.ly" ]}
  ∧ "http://bit.ly/fake-kyc" ∉ phishingLinks (accumulated "s1" w')
  ∧ ∃ payload, sent w' = payload :: sent initial_world
               ∧ payload_sessionId payload = "s1"
               ∧ totalMessagesExchanged payload = 1%nat
               ∧ scamDetected payload = true.
Proof.
  destruct (kyc_scenario default_settings fixed_reply "s1" 0 7 initial_world)
    as (_ & _ & _ & Hturns & _ & _ & Hlinks & Hnot & _ & Hsent).
  - vm_compute. reflexivity.
  - split_and !; [exact Hturns | exact Hlinks | exact Hnot | exact Hsent].
Defined.

End EndToEnd.

(** ** Matching and appended text *)

Section Appending.
Import Re.

Variable tail : list ascii.

Local Abbreviation extends := (Spec.extends tail).
Local Abbreviation carries_over := (Spec.carries_over tail).

Lemma rep_stop_in body fuel hi st : In st (rep body fuel 0 hi st).
Proof. destruct fuel; simpl; [by left|]. apply in_or_app. right. by left. Qed.

Lemma rep_carries_over body :
  carries_over body →
  ∀ fuel1 fuel2 lo hi st1 st2 st1',
    extends st1 st2 → (length (rest st2) ≤ fuel2)%nat →
    In st1' (rep body fuel1 lo hi st1) →
    ∃ st2', In st2' (rep body fuel2 lo hi st2) ∧ extends st1' st2'.
Proof.
  intros Hbody. induction fuel1 as [|f IH]; intros fuel2 lo hi st1 st2 st1' Hext Hfuel Hin.
  - simpl in Hin. destruct (Nat.eqb_spec lo 0) as [->|]; [|done].
    destruct Hin as [<-|[]]. exists st2. split; [apply rep_stop_in|done].
  - simpl in Hin. apply in_app_or in Hin as [Hmore|Hstop].
    + assert (Hhi : hi ≠ Some 0%nat) by (intros ->; done).
      assert (Hflat : In st1'
                (flat_map
                   (fun st' =>
                      if (length (rest st') <? length (rest st1))%nat
                      then rep body f (Nat.pred lo) (option_map Nat.pred hi) st'
                      else []) (body st1))).
      { destruct hi as [[|h]|]; done. }
      apply in_flat_map in Hflat as (sta & Hsta & Hrest).
      destruct (Nat.ltb_spec (length (rest sta)) (length (rest st1))) as [Hlt|]; [|done].
      destruct (Hbody _ _ _ Hext Hsta) as (stb & Hstb & Hextb).
      assert (Hltb : (length (rest stb) < length (rest st2))%nat).
      { destruct Hext as [_ ->], Hextb as [_ ->]. rewrite !length_app. lia. }
      destruct fuel2 as [|f2]; [lia|].
      destruct (IH f2 _ _ _ _ _ Hextb ltac:(lia) Hrest) as (st2' & Hin2 & Hext2).
      exists st2'. split; [|done]. simpl. apply in_or_app. left.
      assert (Hflat2 : In st2'
                (flat_map
                   (fun st' =>
                      if (length (rest st') <? length (rest st2))%nat
                      then rep body f2 (Nat.pred lo) (option_map Nat.pred hi) st'
                      else []) (body st2))).
      { apply in_flat_map. exists stb. split; [done|].
        by destruct (Nat.ltb_spec (length (rest stb)) (length (rest st2))); [|lia]. }
      destruct hi as [[|h]|]; done.
    + destruct (Nat.eqb_spec lo 0) as [->|]; [|done].
      destruct Hstop as [<-|[]]. exists st2. split; [apply rep_stop_in|done].
Qed.

(** A way to match a pattern without [\b] is still there, consuming
    the same characters, when text is appended. *)
Lemma run_carries_over ic r :
  boundary_free r = true → carries_over (run ic r).
Proof.
  induction r as [|p|r1 IH1 r2 IH2|r1 IH1 r2 IH2|r IH lo hi|r IH|];
    simpl; intros Hfree st1 st2 st1' Hext Hin.
  - destruct Hin as [<-|[]]. exists st2. split; [by left|done].
  - destruct Hext as [Hbefore Hrest]. rewrite Hrest.
    destruct (rest st1) as [|c tl]; [done|]. simpl.
    destruct (test ic p c); [|done]. destruct Hin as [<-|[]].
    eexists. split; [by left|]. by split.
  - apply andb_prop in Hfree as [H1 H2].
    apply in_flat_map in Hin as (sta & Hsta & Hin).
    destruct (IH1 H1 _ _ _ Hext Hsta) as (stb & Hstb & Hextb).
    destruct (IH2 H2 _ _ _ Hextb Hin) as (st2' & Hin2 & Hext2).
    exists st2'. split; [|done]. apply in_flat_map. eauto.
  - apply andb_prop in Hfree as [H1 H2].
    apply in_app_or in Hin as [Hin|Hin].
    + destruct (IH1 H1 _ _ _ Hext Hin) as (st2' & ? & ?).
      exists st2'. split; [|done]. apply in_or_app. by left.
    + destruct (IH2 H2 _ _ _ Hext Hin) as (st2' & ? & ?).
      exists st2'. split; [|done]. apply in_or_app. by right.
  - eapply rep_carries_over; eauto.
  - apply in_map_iff in Hin as (sta & <- & Hsta).
    destruct (IH Hfree _ _ _ Hext Hsta) as (stb & Hstb & Hextb).
    eexists. split; [apply in_map_iff; eexists; split; [reflexivity|exact Hstb]|].
    destruct Hextb. by split.
  - done.
Qed.

Lemma search_from_here p prev txt st :
  In st (run (ignorecase p) (expr p) (MState prev txt None)) →
  search_from p prev txt = true.
Proof. destruct txt; simpl; destruct (run _ _ _); done. Qed.

Lemma search_from_carries_over p prev txt :
  boundary_free (expr p) = true →
  search_from p prev txt = true → search_from p prev (txt ++ tail) = true.
Proof.
  intros Hfree. revert prev.
  assert (Hhere : ∀ b l st1',
            In st1' (run (ignorecase p) (expr p) (MState b l None)) →
            search_from p b (l ++ tail) = true).
  { intros b l st1' Hin.
    destruct (run_carries_over (ignorecase p) (expr p) Hfree
                (MState b l None) (MState b (l ++ tail) None) st1')
      as (st2' & Hin2 & _); [by split|done|].
    by eapply search_from_here. }
  induction txt as [|c txt IH]; intros prev; simpl.
  - destruct (run (ignorecase p) (expr p) (MState prev [] None))
      as [|st1' sts] eqn:Hrun; [done|]. intros _.
    apply (Hhere prev [] st1'). rewrite Hrun. by left.
  - destruct (run (ignorecase p) (expr p) (MState prev (c :: txt) None))
      as [|st1' sts] eqn:Hrun.
    + intros H.
      destruct (run (ignorecase p) (expr p) (MState prev (c :: txt ++ tail) None));
        [by apply IH|done].
    + intros _. apply (Hhere prev (c :: txt) st1'). rewrite Hrun. by left.
Qed.

End Appending.

Lemma list_ascii_of_string_app (s t : string) :
  list_ascii_of_string (s +:+ t) = (list_ascii_of_string s ++ list_ascii_of_string t)%list.
Proof. induction s as [|c s IH]; simpl; [done|]. by rewrite IH. Qed.

Lemma search_appended (p : Re.pattern) (message extra : string) :
  Re.boundary_free (Re.expr p) = true →
  Re.search p message = true → Re.search p (message +:+ extra) = true.
Proof.
  intros Hfree. unfold Re.search. rewrite list_ascii_of_string_app.
  by apply search_from_carries_over.
Qed.

(** ** The category confidence *)

Section CategoryConfidence.
Import ScamDetector Spec.
Local Open Scope float_scope.

Lemma count_matches_bound patterns message :
  (count_matches patterns message ≤ length patterns)%nat.
Proof.
  unfold count_matches. induction patterns as [|p ps IH]; simpl; [done|].
  destruct (Re.search p message); simpl; lia.
Qed.

Lemma ratio_in_scores category patterns m :
  In (category, patterns) SCAM_PATTERNS → (1 ≤ m ≤ length patterns)%nat →
  In (ratio m (length patterns)) all_scores.
Proof.
  intros Hin Hm. unfold all_scores. apply in_flat_map.
  exists (category, patterns). split; [done|].
  apply in_map_iff. exists m. split; [done|]. apply in_seq. lia.
Qed.

(** The comparisons of the scores, checked on all of them. *)
Lemma scores_transitive a b c :
  In a all_scores → In b all_scores → In c all_scores →
  score_le a b → score_le b c → score_le a c.
Proof.
  assert (Hall : forallb (fun a => forallb (fun b => forallb (fun c =>
            implb (negb (b <? a) && negb (c <? b)) (negb (c <? a)))
            all_scores) all_scores) all_scores = true) by (vm_compute; reflexivity).
  intros Ha Hb Hc Hab Hbc. unfold score_le in *.
  rewrite forallb_forall in Hall. specialize (Hall a Ha).
  rewrite forallb_forall in Hall. specialize (Hall b Hb).
  rewrite forallb_forall in Hall. specialize (Hall c Hc).
  rewrite Hab, Hbc in Hall. simpl in Hall. by destruct (c <? a).
Qed.

Lemma scores_asymmetric a b :
  In a all_scores → In b all_scores → (a <? b) = true → score_le a b.
Proof.
  assert (Hall : forallb (fun a => forallb (fun b =>
            implb (a <? b) (negb (b <? a))) all_scores) all_scores = true)
    by (vm_compute; reflexivity).
  intros Ha Hb Hab. unfold score_le.
  rewrite forallb_forall in Hall. specialize (Hall a Ha).
  rewrite forallb_forall in Hall. specialize (Hall b Hb).
  rewrite Hab in Hall. simpl in Hall. by destruct (b <? a).
Qed.

Lemma scores_reflexive a : In a all_scores → score_le a a.
Proof.
  assert (Hall : forallb (fun a => negb (a <? a)) all_scores = true)
    by (vm_compute; reflexivity).
  intros Ha. unfold score_le. rewrite forallb_forall in Hall.
  specialize (Hall a Ha). by destruct (a <? a).
Qed.

Lemma boost_monotone a b :
  In a all_scores → In b all_scores → score_le a b → (boost a <=? boost b) = true.
Proof.
  assert (Hall : forallb (fun a => forallb (fun b =>
            implb (negb (b <? a)) (boost a <=? boost b)) all_scores) all_scores = true)
    by (vm_compute; reflexivity).
  intros Ha Hb Hab. unfold score_le in Hab.
  rewrite forallb_forall in Hall. specialize (Hall a Ha).
  rewrite forallb_forall in Hall. specialize (Hall b Hb).
  by rewrite Hab in Hall.
Qed.

Lemma boost_not_negative a : In a all_scores → (0 <=? boost a) = true.
Proof.
  assert (Hall : forallb (fun a => 0 <=? boost a) all_scores = true)
    by (vm_compute; reflexivity).
  intros Ha. rewrite forallb_forall in Hall. by apply Hall.
Qed.

Lemma ratio_monotone category patterns m m' :
  In (category, patterns) SCAM_PATTERNS →
  (1 ≤ m)%nat → (m ≤ m')%nat → (m' ≤ length patterns)%nat →
  score_le (ratio m (length patterns)) (ratio m' (length patterns)).
Proof.
  assert (Hall : forallb (fun '(_, patterns) =>
            forallb (fun m => forallb (fun m' =>
              implb (m <=? m')%nat
                    (negb (ratio m' (length patterns) <? ratio m (length patterns))))
              (seq 1 (length patterns))) (seq 1 (length patterns)))
            SCAM_PATTERNS = true) by (vm_compute; reflexivity).
  intros Hin H1 Hle Hn. unfold score_le.
  rewrite forallb_forall in Hall. specialize (Hall _ Hin). simpl in Hall.
  rewrite forallb_forall in Hall. specialize (Hall m ltac:(apply in_seq; lia)).
  rewrite forallb_forall in Hall. specialize (Hall m' ltac:(apply in_seq; lia)).
  apply Nat.leb_le in Hle. rewrite Hle in Hall. simpl in Hall.
  by destruct (_ <? _).
Qed.

(** The winner of [max_by_score] is an entry that no entry is above. *)
Lemma max_by_score_from (scores : list (string * float)) (best : string * float) :
  In (snd best) all_scores →
  (∀ kv, In kv scores → In (snd kv) all_scores) →
  ∃ winner,
    fold_left
      (fun best kv =>
         match best with
         | None => Some kv
         | Some b => if snd b <? snd kv then Some kv else best
         end)
      scores (Some best) = Some winner
    ∧ (winner = best ∨ In winner scores)
    ∧ score_le (snd best) (snd winner)
    ∧ ∀ kv, In kv scores → score_le (snd kv) (snd winner).
Proof.
  revert best. induction scores as [|x scores IH]; intros best Hbest Hall; simpl.
  - exists best. split_and !; [done|by left|by apply scores_reflexive|by intros ? []].
  - assert (Hx : In (snd x) all_scores) by (apply Hall; by left).
    assert (Hrest : ∀ kv, In kv scores → In (snd kv) all_scores)
      by (intros kv Hkv; apply Hall; by right).
    destruct (snd best <? snd x) eqn:Hlt.
    + destruct (IH x Hx Hrest) as (winner & Hfold & Hwhere & Hle & Hmax).
      assert (Hw : In (snd winner) all_scores).
      { destruct Hwhere as [->|Hw]; [done|by apply Hrest]. }
      exists winner. split_and !; [done| | |].
      * destruct Hwhere as [->|?]; right; [by left|by right].
      * eapply (scores_transitive _ (snd x)); eauto using scores_asymmetric.
      * intros kv [<-|Hkv]; [done|by apply Hmax].
    + destruct (IH best Hbest Hrest) as (winner & Hfold & Hwhere & Hle & Hmax).
      assert (Hw : In (snd winner) all_scores).
      { destruct Hwhere as [->|Hw]; [done|by apply Hrest]. }
      exists winner. split_and !; [done| |done|].
      * destruct Hwhere as [->|?]; [by left|right; by right].
      * intros kv [<-|Hkv]; [|by apply Hmax].
        eapply (scores_transitive _ (snd best)); eauto.
Qed.

Lemma max_by_score_spec (scores : list (string * float)) :
  (∀ kv, In kv scores → In (snd kv) all_scores) →
  match max_by_score scores with
  | None => scores = []
  | Some winner =>
      In winner scores ∧ ∀ kv, In kv scores → score_le (snd kv) (snd winner)
  end.
Proof.
  intros Hall. unfold max_by_score. destruct scores as [|x scores]; [done|]. simpl.
  destruct (max_by_score_from scores x) as (winner & -> & Hwhere & Hle & Hmax).
  - apply Hall. by left.
  - intros kv Hkv. apply Hall. by right.
  - split.
    + destruct Hwhere as [->|?]; [by left|by right].
    + intros kv [<-|Hkv]; [done|by apply Hmax].
Qed.

End CategoryConfidence.

Section CategoryMonotone.
Import ScamDetector Spec.
Local Open Scope float_scope.

Lemma scores_membership (message : string) (kv : string * float) :
  In kv (category_scores message) ↔
  ∃ category patterns,
    In (category, patterns) SCAM_PATTERNS
    ∧ (0 < count_matches patterns message)%nat
    ∧ kv = (category, ratio (count_matches patterns message) (length patterns)).
Proof.
  rewrite category_scores_flat, in_flat_map. split.
  - intros ([category patterns] & Hin & Hkv).
    destruct (Nat.ltb_spec 0 (count_matches patterns message)); [|done].
    destruct Hkv as [<-|[]]. by exists category, patterns.
  - intros (category & patterns & Hin & Hpos & ->).
    exists (category, patterns). split; [done|].
    destruct (Nat.ltb_spec 0 (count_matches patterns message)); [by left|lia].
Qed.

Lemma scores_are_scores (message : string) (kv : string * float) :
  In kv (category_scores message) → In (snd kv) all_scores.
Proof.
  intros (category & patterns & Hin & Hpos & ->)%scores_membership. simpl.
  eapply ratio_in_scores; [done|].
  pose proof (count_matches_bound patterns message). lia.
Qed.

Lemma rule_based_category (message : string) :
  let r := _rule_based_detection message in
  match max_by_score (category_scores message) with
  | Some (category, score) => scam_type r = category ∧ category_confidence r = boost score
  | None => scam_type r = "GENERIC_FRAUD"%string ∧ category_confidence r = 0
  end.
Proof.
  unfold _rule_based_detection.
  by destruct (max_by_score (category_scores message)) as [[category score]|].
Qed.

Lemma scam_patterns_boundary_free category patterns p :
  In (category, patterns) SCAM_PATTERNS → In p patterns →
  Re.boundary_free (Re.expr p) = true.
Proof.
  assert (Hall : forallb (fun '(_, patterns) =>
            forallb (fun p => Re.boundary_free (Re.expr p)) patterns)
            SCAM_PATTERNS = true) by (vm_compute; reflexivity).
  intros Hin Hp. rewrite forallb_forall in Hall. specialize (Hall _ Hin). simpl in Hall.
  rewrite forallb_forall in Hall. by apply Hall.
Qed.

Lemma count_matches_appended patterns message extra :
  (∀ p, In p patterns → Re.boundary_free (Re.expr p) = true) →
  (count_matches patterns message ≤ count_matches patterns (message +:+ extra))%nat.
Proof.
  unfold count_matches. induction patterns as [|p ps IH]; intros Hfree; simpl; [done|].
  assert (IH' := IH (fun q Hq => Hfree q (or_intror Hq))).
  destruct (Re.search p message) eqn:Hs.
  - rewrite (search_appended p message extra (Hfree p (or_introl eq_refl)) Hs).
    simpl. lia.
  - destruct (Re.search p (message +:+ extra)); simpl; lia.
Qed.

Lemma confidence_of_monotone category patterns (m1 m2 : string) :
  In (category, patterns) SCAM_PATTERNS →
  (count_matches patterns m1 ≤ count_matches patterns m2)%nat →
  (confidence_of patterns m1 <=? confidence_of patterns m2) = true.
Proof.
  intros Hin Hle. unfold confidence_of.
  pose proof (count_matches_bound patterns m1).
  pose proof (count_matches_bound patterns m2).
  destruct (Nat.ltb_spec 0 (count_matches patterns m1)) as [Hpos1|Hzero1];
    destruct (Nat.ltb_spec 0 (count_matches patterns m2)) as [Hpos2|Hzero2];
    [|lia| |reflexivity].
  - apply boost_monotone; [eapply ratio_in_scores; [exact Hin|lia] ..|].
    eapply ratio_monotone; [exact Hin|lia ..].
  - apply boost_not_negative. eapply ratio_in_scores; [exact Hin|lia].
Qed.

(** C9. The confidence of a category does not go down when more of its
    patterns match; the category confidence that the classifier
    computes is that of the category it selects; appended text takes no
    match away, and never lowers the category confidence computed. *)
Theorem category_confidence_monotone :
  (∀ category patterns (m1 m2 : string),
      In (category, patterns) SCAM_PATTERNS →
      (count_matches patterns m1 ≤ count_matches patterns m2)%nat →
      (confidence_of patterns m1 <=? confidence_of patterns m2) = true)
  ∧ (∀ message : string,
      category_scores message ≠ [] →
      ∃ patterns,
        In (scam_type (_rule_based_detection message), patterns) SCAM_PATTERNS
        ∧ category_confidence (_rule_based_detection message)
          = confidence_of patterns message)
  ∧ (∀ category patterns (message extra : string),
      In (category, patterns) SCAM_PATTERNS →
      (count_matches patterns message ≤ count_matches patterns (message +:+ extra))%nat)
  ∧ (∀ message extra : string,
      (category_confidence (_rule_based_detection message)
       <=? category_confidence (_rule_based_detection (message +:+ extra))) = true).
Proof.
  assert (Happ : ∀ category patterns (message extra : string),
             In (category, patterns) SCAM_PATTERNS →
             (count_matches patterns message
              ≤ count_matches patterns (message +:+ extra))%nat).
  { intros category patterns message extra Hin. apply count_matches_appended.
    intros p Hp. by eapply scam_patterns_boundary_free. }
  split_and !.
  - apply confidence_of_monotone.
  - intros message Hsome.
    pose proof (rule_based_category message) as Hr.
    pose proof (max_by_score_spec (category_scores message) (scores_are_scores message)) as Hmax.
    destruct (max_by_score (category_scores message)) as [[category score]|]; [|done].
    destruct Hr as [-> ->]. destruct Hmax as [Hin _].
    apply scores_membership in Hin as (c & patterns & Hin & Hpos & [= -> ->]).
    exists patterns. split; [done|]. unfold confidence_of.
    by destruct (Nat.ltb_spec 0 (count_matches patterns message)); [|lia].
  - exact Happ.
  - intros message extra.
    pose proof (rule_based_category message) as Hr.
    pose proof (rule_based_category (message +:+ extra)) as Hr'.
    pose proof (max_by_score_spec _ (scores_are_scores message)) as Hmax.
    pose proof (max_by_score_spec _ (scores_are_scores (message +:+ extra))) as Hmax'.
    destruct (max_by_score (category_scores message)) as [[category score]|].
    + destruct Hr as [_ ->]. destruct Hmax as [Hin _].
      pose proof (scores_are_scores _ _ Hin) as Hscore.
      apply scores_membership in Hin as (c & patterns & Hin & Hpos & [= -> ->]).
      pose proof (Happ _ _ message extra Hin) as Hle.
      pose proof (count_matches_bound patterns (message +:+ extra)) as Hbound.
      assert (Hin' : In (c, ratio (count_matches patterns (message +:+ extra))
                              (length patterns))
                        (category_scores (message +:+ extra))).
      { apply scores_membership. exists c, patterns. split_and !; [done|lia|done]. }
      destruct (max_by_score (category_scores (message +:+ extra)))
        as [[category' score']|]; [|by rewrite Hmax' in Hin'].
      destruct Hr' as [_ ->]. destruct Hmax' as [Hwin Hbest].
      pose proof (scores_are_scores _ _ Hwin) as Hscore'.
      pose proof (scores_are_scores _ _ Hin') as Hmid.
      apply boost_monotone; [done|done|].
      eapply (scores_transitive _ _ _ Hscore Hmid Hscore').
      * eapply ratio_monotone; [exact Hin|lia ..].
      * exact (Hbest _ Hin').
    + destruct Hr as [_ ->].
      destruct (max_by_score (category_scores (message +:+ extra)))
        as [[category' score']|].
      * destruct Hr' as [_ ->]. destruct Hmax' as [Hwin _].
        apply boost_not_negative. exact (scores_are_scores _ _ Hwin).
      * destruct Hr' as [_ ->]. reflexivity.
Qed.

Lemma category_confidence_monotone_witness :
  (confidence_of Scenario.kyc_patterns "Your KYC expired"
   <=? confidence_of Scenario.kyc_patterns
         "Your KYC expired. Update your KYC, account will be blocked, RBI mandate") = true.
Proof.
  destruct category_confidence_monotone as [Hmono _].
  eapply (Hmono "KYC_FRAUD"%string).
  - right. left. reflexivity.
  - vm_compute. lia.
Defined.

End CategoryMonotone.


(** ** More on the session store *)

Section StoreLaws.
Import SessionMemory.
Implicit Types (sid : string) (sessions : gmap string Session).

(** X1. [get_or_create_session] is idempotent: a second call under the same
    identifier, even with another history and at another time, returns
    the session of the first and leaves the store as the first left it;
    a session that exists is returned as it is, and no other entry is
    touched. *)
Theorem get_or_create_idempotent sid history history' now now' sessions :
  let first := get_or_create_session sid history now sessions in
  get_or_create_session sid history' now' (fst first) = first
  ∧ get_session sid (fst first) = Some (snd first)
  ∧ (∀ session, sessions !! sid = Some session →
       first = (sessions, session))
  ∧ (sessions !! sid = None →
       snd first = new_session sid history now
       ∧ get_session_count (fst first) = S (get_session_count sessions))
  ∧ (∀ other, other ≠ sid → fst first !! other = sessions !! other).
Proof.
  intros first. subst first. unfold get_or_create_session, get_session, get_session_count.
  destruct (sessions !! sid) as [session|] eqn:Hs; simpl.
  - rewrite Hs. split_and !; try done. by intros ? [= <-].
  - rewrite lookup_insert_eq. split_and !; try done.
    + intros _. split; [done|]. by apply map_size_insert_None.
    + intros other Hne. by rewrite lookup_insert_ne.
Qed.

Lemma get_or_create_idempotent_witness :
  let first := get_or_create_session "s1" [] 5 ∅ in
  snd first = new_session "s1" [] 5
  ∧ get_session_count (fst first) = S (get_session_count ∅).
Proof.
  apply (get_or_create_idempotent "s1" [] [] 5 6 ∅). reflexivity.
Defined.

Lemma delete_session_delete sid sessions :
  delete_session sid sessions = delete sid sessions.
Proof.
  unfold delete_session. case_bool_decide as Hin; [done|].
  symmetry. apply delete_id. by apply not_elem_of_dom.
Qed.

(** X2. [delete_session] removes the session of the identifier and nothing
    else; the count goes down by one when there was one, and deleting
    again changes nothing. A later [get_or_create_session] starts the
    session afresh. *)
Theorem delete_session_removes_one sid sessions :
  get_session sid (delete_session sid sessions) = None
  ∧ (∀ other, other ≠ sid →
       get_session other (delete_session sid sessions) = get_session other sessions)
  ∧ get_session_count sessions
    = (get_session_count (delete_session sid sessions)
       + (match sessions !! sid with Some _ => 1 | None => 0 end))%nat
  ∧ delete_session sid (delete_session sid sessions) = delete_session sid sessions
  ∧ (∀ history now,
       snd (get_or_create_session sid history now (delete_session sid sessions))
       = new_session sid history now).
Proof.
  rewrite !delete_session_delete. unfold get_session, get_session_count.
  split_and !.
  - apply lookup_delete_eq.
  - intros other Hne. by apply lookup_delete_ne.
  - destruct (sessions !! sid) as [session|] eqn:Hs.
    + rewrite <- (insert_delete_id sessions sid session Hs) at 1.
      rewrite map_size_insert_None by apply lookup_delete_eq. lia.
    + rewrite delete_id by done. lia.
  - apply delete_delete_eq.
  - intros history now. unfold get_or_create_session. by rewrite lookup_delete_eq.
Qed.

(** X3. [update_session] under an identifier that is there replaces that
    session and no other, and keeps the number of sessions. *)
Theorem update_session_replaces sid data sessions :
  is_Some (sessions !! sid) →
  get_session sid (update_session sid data sessions) = Some data
  ∧ (∀ other, other ≠ sid →
       get_session other (update_session sid data sessions) = get_session other sessions)
  ∧ get_session_count (update_session sid data sessions) = get_session_count sessions
  ∧ (∀ data', update_session sid data' (update_session sid data sessions)
              = update_session sid data' sessions).
Proof.
  intros Hsome. rewrite (update_session_present _ _ _ Hsome).
  unfold get_session, get_session_count. split_and !.
  - apply lookup_insert_eq.
  - intros other Hne. by apply lookup_insert_ne.
  - destruct Hsome as [old Hold]. by eapply map_size_insert_Some.
  - intros data'. rewrite !update_session_present; [|done|].
    + apply insert_insert_eq.
    + rewrite lookup_insert_eq. eauto.
Qed.

Lemma update_session_replaces_witness :
  get_session "s1" (update_session "s1" (new_session "s1" [] 9)
                      {[ "s1" := new_session "s1" [] 5 ]})
  = Some (new_session "s1" [] 9).
Proof.
  apply (update_session_replaces "s1" (new_session "s1" [] 9)
           {[ "s1" := new_session "s1" [] 5 ]}).
  vm_compute. eauto.
Defined.

(** X4. The three readings of the store agree: [list_active_sessions] names
    every stored session once, [get_session_count] is the number of
    names, and [get_session] finds a session exactly under those
    names. *)
Theorem active_sessions_agree sessions :
  NoDup (list_active_sessions sessions)
  ∧ length (list_active_sessions sessions) = get_session_count sessions
  ∧ (∀ sid, sid ∈ list_active_sessions sessions ↔ is_Some (get_session sid sessions)).
Proof.
  unfold list_active_sessions, get_session_count, get_session.
  change (map fst (map_to_list sessions)) with ((map_to_list sessions).*1).
  split_and !.
  - apply NoDup_fst_map_to_list.
  - by rewrite length_fmap, length_map_to_list.
  - intros sid. rewrite list_elem_of_fmap. split.
    + intros ([sid' session] & -> & Hin). apply elem_of_map_to_list in Hin. eauto.
    + intros [session Hsession]. exists (sid, session). split; [done|].
      by apply elem_of_map_to_list.
Qed.

End StoreLaws.


Section Cleanup.
Import SessionMemory.
Implicit Types (sid : string) (sessions : gmap string Session).

Lemma delete_all_lookup (ids : list string) sessions sid :
  fold_left (fun sessions session_id => delete_session session_id sessions) ids sessions !! sid
  = if bool_decide (sid ∈ ids) then None else sessions !! sid.
Proof.
  revert sessions. induction ids as [|id ids IH]; intros sessions; simpl; [done|].
  rewrite IH, delete_session_delete.
  destruct (decide (sid = id)) as [->|Hne].
  - rewrite lookup_delete_eq, (bool_decide_eq_true_2 (id ∈ id :: ids)) by set_solver.
    by case_bool_decide.
  - rewrite lookup_delete_ne by done.
    destruct (decide (sid ∈ ids)) as [Hin|Hout].
    + rewrite !bool_decide_eq_true_2; [done|set_solver|done].
    + rewrite !bool_decide_eq_false_2; [done|set_solver|done].
Qed.

Lemma to_delete_spec (old : Session → bool) sessions sid :
  sid ∈ map fst (List.filter (fun '(_, session) => old session) (map_to_list sessions))
  ↔ ∃ session, sessions !! sid = Some session ∧ old session = true.
Proof.
  rewrite list_elem_of_In, in_map_iff. split.
  - intros ([k session] & <- & [Hin Hold]%filter_In).
    apply list_elem_of_In, elem_of_map_to_list in Hin. eauto.
  - intros (session & Hs & Hold). exists (sid, session). split; [done|].
    apply filter_In. split; [|done]. by apply list_elem_of_In, elem_of_map_to_list.
Qed.

Lemma to_delete_NoDup (old : Session → bool) sessions :
  NoDup (map fst (List.filter (fun '(_, session) => old session) (map_to_list sessions))).
Proof.
  pose proof (NoDup_fst_map_to_list sessions) as Hnd.
  induction (map_to_list sessions) as [|[k s] l IH]; simpl in *; [constructor|].
  apply NoDup_cons in Hnd as [Hk Hnd].
  destruct (old s); simpl; [|by apply IH].
  apply NoDup_cons. split; [|by apply IH].
  intros Hin. apply Hk. apply list_elem_of_In, in_map_iff in Hin as ([k' s'] & <- & [Hin _]%filter_In).
  apply list_elem_of_In, in_map_iff. by exists (k', s').
Qed.

(** X5. [cleanup_old_sessions] removes exactly the sessions that are too
    old at the clock reading, keeps every other session as it is,
    returns the number of sessions it removed, and removes nothing when
    it runs again at the same clock reading. *)
Theorem cleanup_removes_the_old (max_age_hours now : Z) sessions :
  let old session :=
    (float_of_Z max_age_hours <? age_hours now (created_at session))%float in
  let cleaned := cleanup_old_sessions max_age_hours now sessions in
  (∀ sid, fst cleaned !! sid
          = match sessions !! sid with
            | Some session => if old session then None else Some session
            | None => None
            end)
  ∧ get_session_count sessions = (get_session_count (fst cleaned) + snd cleaned)%nat
  ∧ cleanup_old_sessions max_age_hours now (fst cleaned) = (fst cleaned, 0%nat).
Proof.
  intros old cleaned.
  assert (Hlookup : ∀ sid, fst cleaned !! sid
            = match sessions !! sid with
              | Some session => if old session then None else Some session
              | None => None
              end).
  { intros sid. subst cleaned. unfold cleanup_old_sessions. simpl.
    rewrite delete_all_lookup.
    case_bool_decide as Hin.
    - apply (to_delete_spec old) in Hin as (session & -> & ->). done.
    - destruct (sessions !! sid) as [session|] eqn:Hs; [|done].
      destruct (old session) eqn:Hold; [|done].
      exfalso. apply Hin, (to_delete_spec old). eauto. }
  split; [exact Hlookup|]. split.
  - set (ids := map fst (List.filter (fun '(_, session) => old session)
                           (map_to_list sessions))).
    assert (Hn : snd cleaned = length ids) by done.
    assert (Hdom : dom sessions = dom (fst cleaned) ∪ list_to_set ids).
    { apply set_eq. intros sid.
      rewrite elem_of_union, !elem_of_dom, elem_of_list_to_set, Hlookup.
      unfold ids. rewrite (to_delete_spec old).
      destruct (sessions !! sid) as [session|]; [|split; [intros [? ?]|intros [[? ?]|(? & ? & ?)]]; done].
      destruct (old session) eqn:Hold.
      - split; [intros _; right; eauto|eauto].
      - split; [intros _; left; eauto|eauto]. }
    unfold get_session_count. rewrite <- !size_dom, Hdom, size_union.
    + rewrite size_list_to_set by apply (to_delete_NoDup old). by rewrite Hn.
    + intros sid Hkept Hgone. apply elem_of_dom in Hkept as [session Hkept].
      apply elem_of_list_to_set in Hgone. unfold ids in Hgone.
      apply (to_delete_spec old) in Hgone as (session' & Hs & Hold).
      rewrite Hlookup, Hs, Hold in Hkept. done.
  - unfold cleanup_old_sessions at 1.
    assert (Hnone : List.filter (fun '(_, session) => old session)
                      (map_to_list (fst cleaned)) = []).
    { destruct (List.filter _ _) as [|[k s] l] eqn:Hf; [done|].
      assert (Hin : In (k, s) (List.filter (fun '(_, session) => old session)
                                 (map_to_list (fst cleaned)))) by (rewrite Hf; by left).
      apply filter_In in Hin as [Hin Hold].
      apply list_elem_of_In, elem_of_map_to_list in Hin.
      rewrite Hlookup in Hin.
      destruct (sessions !! k) as [s'|]; [|done].
      destruct (old s') eqn:Hold'; [done|]. injection Hin as ->. congruence. }
    change (List.filter _ (map_to_list (fst cleaned)))
      with (List.filter (fun '(_, session) => old session) (map_to_list (fst cleaned))).
    by rewrite Hnone.
Qed.

End Cleanup.

(** A day and an hour after it was created a session is removed; after
    a day exactly it stays, since the comparison is strict. *)
Example cleanup_after_a_day :
  let sessions : gmap string Session :=
    {[ "old" := SessionMemory.new_session "old" [] 0;
       "new" := SessionMemory.new_session "new" [] 3600000000 ]} in
  let cleaned := SessionMemory.cleanup_old_sessions 24 90000000000 sessions in
  snd cleaned = 1%nat
  ∧ fst cleaned !! "old" = None
  ∧ fst cleaned !! "new" = Some (SessionMemory.new_session "new" [] 3600000000)
  ∧ SessionMemory.cleanup_old_sessions 24 86400000000 sessions = (sessions, 0%nat).
Proof. vm_compute. done. Qed.


(** ** More on the pipeline *)

Section PipelineInvariants.
Import SessionMemory ConversationOrchestrator Spec Reachable.

Variable settings : Settings.
Variable generate_response : string -> Session -> list Message -> string.

Local Abbreviation process := (process_message settings generate_response).
Local Abbreviation serving := (serve settings generate_response).

(** X6. A call touches the session of its request only: every other stored
    session stays as it is, the request's session is in the store
    afterwards, and the Reporter gets at most one payload, which is for
    the request's session. *)
Theorem sessions_are_isolated (request : IncomingRequest) (now : Z) (w : World) :
  let w' := fst (process request now w) in
  (∀ other, other ≠ sessionId request → memory w' !! other = memory w !! other)
  ∧ is_Some (memory w' !! sessionId request)
  ∧ (sent w' = sent w
     ∨ ∃ p, sent w' = p :: sent w ∧ payload_sessionId p = sessionId request).
Proof.
  intros w'. split_and !.
  - intros other Hne. by apply process_message_other.
  - subst w'. rewrite process_message_world.
    repeat match goal with |- context [if ?b then _ else _] => destruct b end;
      simpl; rewrite lookup_insert_eq; eauto.
  - subst w'. rewrite process_message_world.
    repeat match goal with |- context [if ?b then _ else _] => destruct b end;
      simpl; eauto.
Qed.

Lemma detect_first_turn_engaged request s :
  (1 ≤ turn_count s)%nat → detect_first_turn request s = (s, false).
Proof.
  intros Hturn. unfold detect_first_turn.
  by destruct (Nat.eqb_spec (turn_count s) 0); [lia|].
Qed.

(** X7. The detector is asked on the first turn only. A message for a
    session that has had a turn is always engaged with: the reply is
    the persona's, computed from the session as stored, the turn count
    goes up by one and the stored verdict, confidence and category stay
    as they are. *)
Theorem classification_is_frozen (request : IncomingRequest) (now : Z) (w : World)
    (s : Session) :
  memory w !! sessionId request = Some s → (1 ≤ turn_count s)%nat →
  snd (process request now w)
  = {| reply := generate_response (text (message request)) s (conversationHistory request) |}
  ∧ ∃ s', memory (fst (process request now w)) !! sessionId request = Some s'
          ∧ turn_count s' = (turn_count s + 1)%nat
          ∧ scam_detected s' = scam_detected s
          ∧ scam_confidence s' = scam_confidence s
          ∧ scam_type s' = scam_type s.
Proof.
  intros Hs Hturn. split.
  - unfold process_message. rewrite get_or_create_stored, Hs. simpl.
    by rewrite (detect_first_turn_engaged _ _ Hturn).
  - assert (Hn : closes_neutrally request w = false).
    { unfold closes_neutrally, stored_turns. rewrite Hs. simpl.
      by destruct (Nat.eqb_spec (turn_count s) 0); [lia|]. }
    rewrite (process_message_engaged _ _ _ _ _ Hn).
    assert (Hafter : session_after_turn request now w
                     = with_turn s
                         (_merge_intelligence (extracted_intelligence s)
                            (IntelligenceExtractor.extract (text (message request))))
                         (turn_count s + 1) now).
    { unfold session_after_turn, session_at. rewrite Hs. simpl.
      by rewrite (detect_first_turn_engaged _ _ Hturn). }
    rewrite Hafter.
    destruct (_ && _); simpl; rewrite lookup_insert_eq; eexists; split; done.
Qed.

(** X8. The safety limit decides only when it is configured below 3: the
    third turn ends every conversation before it. *)
Theorem safety_limit_is_shadowed (s : Session) :
  end_condition settings s = Some MaxTurns →
  (MAX_CONVERSATION_TURNS settings ≤ 2)%Z ∧ (turn_count s ≤ 2)%nat.
Proof.
  intros H. pose proof (end_condition_cases settings s) as Hc. rewrite H in Hc.
  destruct Hc as (_ & _ & Hnc & Hd). unfold cond_c, cond_d in *. lia.
Qed.

Lemma detect_first_turn_marks request s :
  snd (detect_first_turn request s) = false →
  ((1 ≤ turn_count s)%nat → scam_detected s = true) →
  scam_detected (fst (detect_first_turn request s)) = true.
Proof.
  unfold detect_first_turn.
  destruct (Nat.eqb_spec (turn_count s) 0) as [Hz|Hnz]; simpl.
  - destruct (ScamDetector.detect _ _) as [[is_scam confidence] type].
    destruct is_scam; simpl; [done|]. by destruct (confidence <? 0.1)%float.
  - intros _ H. apply H. lia.
Qed.

Lemma intel_sets_elements (i : intel (gset string)) :
  intel_sets
    {| bankAccounts := elements (bankAccounts i);
       upiIds := elements (upiIds i);
       phishingLinks := elements (phishingLinks i);
       phoneNumbers := elements (phoneNumbers i);
       suspiciousKeywords := elements (suspiciousKeywords i) |} = i.
Proof.
  destruct i. unfold intel_sets. simpl. f_equal; apply list_to_set_elements_L.
Qed.

Lemma intel_subseteq_refl (i : intel (gset string)) : intel_subseteq i i.
Proof. unfold intel_subseteq. by split_and !. Qed.

Lemma intel_subseteq_trans (a b c : intel (gset string)) :
  intel_subseteq a b → intel_subseteq b c → intel_subseteq a c.
Proof.
  unfold intel_subseteq. intros (?&?&?&?&?) (?&?&?&?&?). split_and !; set_solver.
Qed.

Lemma merge_grows (existing : intel (gset string)) (new : intel (list string)) :
  intel_subseteq existing (_merge_intelligence existing new).
Proof. unfold intel_subseteq, _merge_intelligence. simpl. split_and !; set_solver. Qed.

Lemma session_at_ok request now w :
  world_ok w → session_ok (session_at request now w).
Proof.
  intros [Hs _]. unfold session_at.
  destruct (memory w !! sessionId request) as [s|] eqn:E; simpl; [by eapply Hs|].
  unfold session_ok, new_session. simpl. split_and !; intros; (done || lia).
Qed.

Lemma session_at_turns request now w :
  turn_count (session_at request now w) = stored_turns (sessionId request) w.
Proof. unfold session_at, stored_turns. by destruct (memory w !! sessionId request). Qed.

Lemma session_at_finalized request now w :
  finalized (session_at request now w) = is_finalized (sessionId request) w.
Proof. unfold session_at, is_finalized. by destruct (memory w !! sessionId request). Qed.

(** Old reports stay sound when the session of the request is replaced
    by one that holds at least as much. *)
Lemma reports_carry_over (w : World) (sid : string) (s' : Session) (log : list FinalResultPayload) :
  world_ok w →
  (∀ p s, In p (sent w) → payload_sessionId p = sid → memory w !! sid = Some s →
          report_ok p s → report_ok p s') →
  (∀ p, In p log → In p (sent w) ∨ (payload_sessionId p = sid ∧ report_ok p s')) →
  ∀ p, In p log →
    ∃ s, <[sid := s']> (memory w) !! payload_sessionId p = Some s ∧ report_ok p s.
Proof.
  intros [_ Hreports] Hkeep Hlog p Hp.
  destruct (Hlog p Hp) as [Hold|[Hsid Hok]].
  - destruct (Hreports p Hold) as (s & Hs & Hok).
    destruct (decide (payload_sessionId p = sid)) as [Heq|Hne].
    + exists s'. rewrite Heq, lookup_insert_eq. split; [done|].
      rewrite Heq in Hs. by eapply Hkeep.
    + exists s. by rewrite lookup_insert_ne.
  - exists s'. by rewrite Hsid, lookup_insert_eq.
Qed.

Lemma with_finalized_ok (s : Session) (now : Z) :
  scam_detected s = true → (1 ≤ turn_count s)%nat → session_ok (with_finalized s now).
Proof. intros Hscam Hturn. unfold session_ok. simpl. by split_and !. Qed.

Lemma fresh_report_ok (sid : string) (s : Session) (now : Z) :
  scam_detected s = true → (1 ≤ turn_count s ≤ 3)%nat →
  report_ok (final_payload sid (with_finalized s now)) (with_finalized s now).
Proof.
  intros Hscam Hturn. unfold report_ok, final_payload. simpl.
  split_and !; try done; try lia.
  rewrite intel_sets_elements. apply intel_subseteq_refl.
Qed.

Lemma world_ok_step (request : IncomingRequest) (now : Z) (w : World) :
  world_ok w → world_ok (fst (process request now w)).
Proof.
  intros Hw. pose proof Hw as [Hsessions Hreports].
  pose proof (session_at_ok request now w Hw) as (Hscam0 & Hopen0 & Hfin0).
  pose proof (detect_first_turn_keeps request (session_at request now w))
    as (Hturn1 & Hfin1 & Hintel1).
  rewrite session_at_turns in *. rewrite session_at_finalized in *.
  set (sid := sessionId request) in *.
  assert (Hstore : ∀ s' log,
    session_ok s' →
    (∀ p, In p log → ∃ s, <[sid := s']> (memory w) !! payload_sessionId p = Some s
                          ∧ report_ok p s) →
    world_ok {| memory := <[sid := s']> (memory w); sent := log |}).
  { intros s' log Hs' Hlog. split; [|exact Hlog]. simpl. intros k s.
    destruct (decide (k = sid)) as [->|Hne].
    - rewrite lookup_insert_eq. by intros [= <-].
    - rewrite lookup_insert_ne by done. apply Hsessions. }
  rewrite process_message_world. fold sid.
  destruct (closes_neutrally request w) eqn:Hn.
  - (* the neutral return *)
    assert (Hzero : stored_turns sid w = 0%nat).
    { unfold closes_neutrally in Hn. apply andb_prop in Hn as [Hz _].
      by apply Nat.eqb_eq in Hz. }
    assert (Hopen : is_finalized sid w = false).
    { destruct (is_finalized sid w); [|done]. specialize (Hfin0 eq_refl). lia. }
    apply Hstore.
    + unfold session_ok. rewrite Hturn1, Hfin1, Hzero, Hopen.
      split_and !; intros; (done || lia).
    + apply (reports_carry_over w sid _ (sent w) Hw); [|by left].
      intros p s Hp Hsid Hs (_ & _ & _ & Hfin & _).
      unfold is_finalized in Hopen. fold sid in Hopen. rewrite Hs in Hopen.
      simpl in Hopen. congruence.
  - (* an engaged turn *)
    pose proof (session_after_turn_turns request now w) as Hturn2.
    pose proof (session_after_turn_finalized request now w) as Hfin2.
    pose proof (session_after_turn_intelligence request now w) as Hintel2.
    fold sid in Hturn2, Hfin2, Hintel2.
    assert (Hscam2 : scam_detected (session_after_turn request now w) = true).
    { unfold session_after_turn. simpl. apply detect_first_turn_marks.
      - rewrite detect_first_turn_early. exact Hn.
      - rewrite session_at_turns. exact Hscam0. }
    remember (session_after_turn request now w) as s2 eqn:Hs2. clear Hs2.
    destruct (_should_end_conversation settings s2) eqn:Hend;
      destruct (is_finalized sid w) eqn:Hbefore; rewrite Hfin2; simpl.
    + (* the predicate holds on a finalized session *)
      apply Hstore.
      * unfold session_ok. rewrite Hturn2, Hfin2, Hscam2.
        split_and !; intros; (done || lia).
      * apply (reports_carry_over w sid _ (sent w) Hw); [|by left].
        intros p s Hp Hsid Hs (Hp1 & Hp2 & Hp3 & Hp4 & Hp5).
        assert (Hacc : accumulated sid w = extracted_intelligence s)
          by (unfold accumulated; by rewrite Hs).
        assert (Hst : stored_turns sid w = turn_count s)
          by (unfold stored_turns; by rewrite Hs).
        unfold report_ok. rewrite Hturn2, Hfin2, Hintel2, Hacc, Hst.
        split_and !; try done; try lia.
        eapply intel_subseteq_trans; [exact Hp5|apply merge_grows].
    + (* the session is finalized and reported *)
      specialize (Hopen0 eq_refl).
      assert (Hnew : report_ok (final_payload sid (with_finalized s2 now))
                       (with_finalized s2 now))
        by (apply fresh_report_ok; [done|lia]).
      apply Hstore.
      * apply with_finalized_ok; [done|lia].
      * apply (reports_carry_over w sid _ _ Hw).
        -- intros p s Hp Hsid Hs (_ & _ & _ & Hfin & _).
           unfold is_finalized in Hbefore. fold sid in Hbefore. rewrite Hs in Hbefore.
           simpl in Hbefore. congruence.
        -- intros p [<-|Hp]; [right|by left]. split; [done|exact Hnew].
    + (* the predicate fails on a finalized session *)
      apply Hstore.
      * unfold session_ok. rewrite Hturn2, Hfin2, Hscam2.
        split_and !; intros; (done || lia).
      * apply (reports_carry_over w sid _ (sent w) Hw); [|by left].
        intros p s Hp Hsid Hs (Hp1 & Hp2 & Hp3 & Hp4 & Hp5).
        assert (Hacc : accumulated sid w = extracted_intelligence s)
          by (unfold accumulated; by rewrite Hs).
        assert (Hst : stored_turns sid w = turn_count s)
          by (unfold stored_turns; by rewrite Hs).
        unfold report_ok. rewrite Hturn2, Hfin2, Hintel2, Hacc, Hst.
        split_and !; try done; try lia.
        eapply intel_subseteq_trans; [exact Hp5|apply merge_grows].
    + (* the conversation goes on *)
      assert (Hsmall : (turn_count s2 ≤ 2)%nat).
      { pose proof (end_condition_cases settings s2) as Hc.
        unfold _should_end_conversation in Hend.
        destruct (end_condition settings s2); [done|].
        destruct Hc as (_ & _ & Hc & _). unfold cond_c in Hc. lia. }
      apply Hstore.
      * unfold session_ok. rewrite Hfin2, Hscam2.
        split_and !; intros; (done || lia).
      * apply (reports_carry_over w sid _ (sent w) Hw); [|by left].
        intros p s Hp Hsid Hs (_ & _ & _ & Hfin & _).
        unfold is_finalized in Hbefore. fold sid in Hbefore. rewrite Hs in Hbefore.
        simpl in Hbefore. congruence.
Qed.

Lemma world_ok_initial : world_ok initial_world.
Proof. split; [intros sid s H; simpl in H; by rewrite lookup_empty in H|intros p []]. Qed.

Lemma world_ok_serve requests w : world_ok w → world_ok (serving requests w).
Proof.
  revert w. induction requests as [|[request now] requests IH]; intros w Hw; [done|].
  simpl. apply IH. by apply world_ok_step.
Qed.

(** X9. Every payload the Reporter has received says that a scam was
    detected, counts between one and three turns, never more than the
    session has had since, and lists nothing that the session does not
    still hold; its session is finalized. *)
Theorem reports_are_sound (requests : list (IncomingRequest * Z)) (p : FinalResultPayload) :
  In p (sent (serving requests initial_world)) →
  scamDetected p = true
  ∧ (1 ≤ totalMessagesExchanged p ≤ 3)%nat
  ∧ (totalMessagesExchanged p
     ≤ stored_turns (payload_sessionId p) (serving requests initial_world))%nat
  ∧ is_finalized (payload_sessionId p) (serving requests initial_world) = true
  ∧ intel_subseteq (intel_sets (extractedIntelligence p))
      (accumulated (payload_sessionId p) (serving requests initial_world)).
Proof.
  intros Hp.
  destruct (world_ok_serve requests initial_world world_ok_initial) as [_ Hreports].
  destruct (Hreports p Hp) as (s & Hs & H1 & H2 & H3 & H4 & H5).
  unfold stored_turns, is_finalized, accumulated. rewrite Hs. simpl.
  split_and !; try done; lia.
Qed.

(** X10. Every stored session that has had a turn is marked as a scam, every
    session is finalized by its third turn, and no session is finalized
    before its first. *)
Theorem sessions_end_by_third_turn (requests : list (IncomingRequest * Z))
    (sid : string) (s : Session) :
  memory (serving requests initial_world) !! sid = Some s →
  ((1 ≤ turn_count s)%nat → scam_detected s = true)
  ∧ ((3 ≤ turn_count s)%nat → finalized s = true)
  ∧ (finalized s = true → (1 ≤ turn_count s)%nat).
Proof.
  intros Hs.
  destruct (world_ok_serve requests initial_world world_ok_initial) as [Hsessions _].
  destruct (Hsessions sid s Hs) as (H1 & H2 & H3).
  split_and !; [done| |done].
  intros Hturn. destruct (finalized s); [done|]. specialize (H2 eq_refl). lia.
Qed.

(** X11. A payload is the session at the moment it is sent: it goes out on
    the turn that finalizes the session, counts that turn, and lists the
    accumulated collections with what that turn's message added. *)
Theorem report_is_snapshot (request : IncomingRequest) (now : Z) (w : World) :
  let sid := sessionId request in
  let w' := fst (process request now w) in
  sent w' ≠ sent w →
  ∃ p, sent w' = p :: sent w
       ∧ payload_sessionId p = sid
       ∧ totalMessagesExchanged p = stored_turns sid w'
       ∧ stored_turns sid w' = (stored_turns sid w + 1)%nat
       ∧ intel_sets (extractedIntelligence p) = accumulated sid w'
       ∧ accumulated sid w'
         = _merge_intelligence (accumulated sid w)
             (IntelligenceExtractor.extract (text (message request)))
       ∧ is_finalized sid w = false
       ∧ is_finalized sid w' = true.
Proof.
  intros sid w'. subst w'. rewrite process_message_world. fold sid.
  destruct (closes_neutrally request w); [done|].
  pose proof (session_after_turn_turns request now w) as Hturn.
  pose proof (session_after_turn_finalized request now w) as Hfin.
  pose proof (session_after_turn_intelligence request now w) as Hintel.
  fold sid in Hturn, Hfin, Hintel.
  remember (session_after_turn request now w) as s2 eqn:Hs2. clear Hs2.
  destruct (_should_end_conversation settings s2); simpl; [|done].
  destruct (finalized s2) eqn:Hf; simpl; [done|]. intros _.
  eexists. split; [reflexivity|].
  rewrite stored_turns_insert, accumulated_insert, is_finalized_insert.
  unfold final_payload. cbn [payload_sessionId totalMessagesExchanged extractedIntelligence
                             with_finalized turn_count extracted_intelligence finalized].
  rewrite intel_sets_elements. split_and !; try done; congruence.
Qed.

End PipelineInvariants.

Section PipelineInvariantExamples.
Import SessionMemory ConversationOrchestrator Spec Scenario.

Lemma classification_is_frozen_witness :
  let w := served [(scammer_says "s1" kyc_message, 7%Z)] in
  ∃ s', memory (fst (process_message default_settings fixed_reply
                       (scammer_says "s1" "hello") 8 w)) !! "s1" = Some s'
        ∧ turn_count s' = 2%nat
        ∧ scam_detected s' = true
        ∧ scam_type s' = "KYC_FRAUD".
Proof.
  intros w.
  destruct (memory w !! "s1") as [s|] eqn:Hs; [|by vm_compute in Hs].
  destruct (classification_is_frozen default_settings fixed_reply
              (scammer_says "s1" "hello") 8 w s Hs) as (_ & s' & H1 & H2 & H3 & _ & H5).
  - vm_compute in Hs. injection Hs as <-. vm_compute. lia.
  - exists s'. vm_compute in Hs. injection Hs as <-. split_and !; try done.
Defined.

Lemma safety_limit_is_shadowed_witness :
  let s := with_turn (new_session "s1" [] 0) empty_intelligence 2 0 in
  (MAX_CONVERSATION_TURNS {| MAX_CONVERSATION_TURNS := 2 |} ≤ 2)%Z ∧ (turn_count s ≤ 2)%nat.
Proof.
  apply (safety_limit_is_shadowed {| MAX_CONVERSATION_TURNS := 2 |}).
  vm_compute. reflexivity.
Defined.

Lemma reports_are_sound_witness :
  ∃ p, In p (sent (served [(scammer_says "s1" kyc_message, 7%Z)]))
       ∧ scamDetected p = true
       ∧ (1 ≤ totalMessagesExchanged p ≤ 3)%nat.
Proof.
  destruct (sent (served [(scammer_says "s1" kyc_message, 7%Z)])) as [|p l] eqn:Hsent;
    [by vm_compute in Hsent|].
  exists p. split; [by left|].
  destruct (reports_are_sound default_settings fixed_reply
              [(scammer_says "s1" kyc_message, 7%Z)] p) as (H1 & H2 & _).
  - unfold served in Hsent. rewrite Hsent. by left.
  - by split.
Defined.

Lemma sessions_end_by_third_turn_witness :
  ∃ s, memory (served [(scammer_says "s1" "Your KYC expired", 7%Z);
                       (scammer_says "s1" "are you there", 8%Z);
                       (scammer_says "s1" "answer me", 9%Z)]) !! "s1" = Some s
       ∧ turn_count s = 3%nat
       ∧ finalized s = true.
Proof.
  destruct (memory (served [(scammer_says "s1" "Your KYC expired", 7%Z);
                            (scammer_says "s1" "are you there", 8%Z);
                            (scammer_says "s1" "answer me", 9%Z)]) !! "s1")
    as [s|] eqn:Hs; [|by vm_compute in Hs].
  exists s. split; [done|].
  assert (Hturn : turn_count s = 3%nat).
  { vm_compute in Hs. injection Hs as <-. reflexivity. }
  split; [exact Hturn|].
  apply (sessions_end_by_third_turn default_settings fixed_reply _ "s1" s Hs). lia.
Defined.

Lemma report_is_snapshot_witness :
  ∃ p, sent (fst (process_message default_settings fixed_reply
                    (scammer_says "s1" kyc_message) 7 initial_world))
       = p :: sent initial_world
       ∧ payload_sessionId p = "s1"
       ∧ totalMessagesExchanged p = 1%nat.
Proof.
  destruct (report_is_snapshot default_settings fixed_reply
              (scammer_says "s1" kyc_message) 7%Z initial_world)
    as (p & H1 & H2 & H3 & H4 & _).
  - vm_compute. discriminate.
  - exists p. split_and !; [done|done|]. rewrite H3, H4. reflexivity.
Defined.

End PipelineInvariantExamples.


(** ** More on the classifier *)

Section ClassifierBounds.
Import ScamDetector Spec Scoring.
Local Open Scope float_scope.

Lemma count_keywords_bound keywords message_lower :
  (count_keywords keywords message_lower ≤ length keywords)%nat.
Proof.
  unfold count_keywords. induction keywords as [|k ks IH]; simpl; [done|].
  destruct (Str.contains k message_lower); simpl; lia.
Qed.

Lemma rule_based_confidence (message : string) :
  let r := _rule_based_detection message in
  let message_lower := Str.lower message in
  confidence r
  = final_confidence (category_confidence r)
      (count_keywords URGENCY_KEYWORDS message_lower)
      (count_keywords AUTHORITY_KEYWORDS message_lower)
      (count_keywords SUSPICIOUS_ACTIONS message_lower)
      (count_keywords high_risk_keywords message_lower).
Proof.
  unfold _rule_based_detection.
  by destruct (max_by_score (category_scores message)) as [[category score]|].
Qed.

Lemma confidence_in_table (message : string) :
  In (confidence (_rule_based_detection message))
     (confidences_of (category_confidence (_rule_based_detection message))).
Proof.
  rewrite rule_based_confidence. unfold confidences_of.
  set (ml := Str.lower message).
  apply in_flat_map. exists (count_keywords URGENCY_KEYWORDS ml).
  split; [apply in_seq; pose proof (count_keywords_bound URGENCY_KEYWORDS ml); lia|].
  apply in_flat_map. exists (count_keywords AUTHORITY_KEYWORDS ml).
  split; [apply in_seq; pose proof (count_keywords_bound AUTHORITY_KEYWORDS ml); lia|].
  apply in_flat_map. exists (count_keywords SUSPICIOUS_ACTIONS ml).
  split; [apply in_seq; pose proof (count_keywords_bound SUSPICIOUS_ACTIONS ml); lia|].
  apply in_map_iff. exists (count_keywords high_risk_keywords ml).
  split; [done|].
  apply in_seq. pose proof (count_keywords_bound high_risk_keywords ml). lia.
Qed.

Lemma category_confidence_in_table (message : string) :
  match category_scores message with
  | [] => category_confidence (_rule_based_detection message) = 0
  | _ :: _ =>
      In (category_confidence (_rule_based_detection message)) (map boost all_scores)
  end.
Proof.
  pose proof (rule_based_category message) as Hr.
  pose proof (max_by_score_spec _ (scores_are_scores message)) as Hmax.
  destruct (max_by_score (category_scores message)) as [[category score]|].
  - destruct Hr as [_ ->]. destruct Hmax as [Hin _].
    pose proof (scores_are_scores _ _ Hin) as Hscore.
    destruct (category_scores message); [done|].
    apply in_map. exact Hscore.
  - destruct Hr as [_ ->]. by rewrite Hmax.
Qed.

(** X12. A message that matches a pattern of any category is a scam for
    [detect], with or without history: its confidence is above 0.41,
    the label is the category selected, and as a first message it is
    never given the neutral closing reply. *)
Theorem any_match_is_scam (message_text : string) (history : list Message) :
  category_scores message_text ≠ [] →
  (0.41 <? confidence (_rule_based_detection message_text)) = true
  ∧ detect message_text history
    = (true, confidence (_rule_based_detection message_text),
       scam_type (_rule_based_detection message_text))
  ∧ (∀ request w,
       text (message request) = message_text → closes_neutrally request w = false).
Proof.
  assert (Hall : forallb (fun c => forallb (fun x => (0.41 <? x) && (0.2 <? x))
                                     (confidences_of c))
                   (map boost all_scores) = true) by (vm_compute; reflexivity).
  intros Hsome.
  assert (Hboth : (0.41 <? confidence (_rule_based_detection message_text)) = true
                  ∧ (0.2 <? confidence (_rule_based_detection message_text)) = true).
  { pose proof (category_confidence_in_table message_text) as Hc.
    destruct (category_scores message_text); [exfalso; apply Hsome; reflexivity|].
    rewrite forallb_forall in Hall. specialize (Hall _ Hc).
    rewrite forallb_forall in Hall.
    apply andb_prop. apply Hall, confidence_in_table. }
  destruct Hboth as [Hconf Hhigh].
  assert (Hdetect : ∀ h, detect message_text h
            = (true, confidence (_rule_based_detection message_text),
               scam_type (_rule_based_detection message_text))).
  { intros h. unfold detect. rewrite Hhigh. reflexivity. }
  split; [exact Hconf|]. split; [exact (Hdetect history)|].
  intros request w <-. unfold closes_neutrally. rewrite Hdetect.
  cbv beta iota zeta. cbn [negb andb]. apply andb_false_r.
Qed.

(** X13. The confidence is never negative and never above 2.31; without a
    pattern match it is at most 0.55. It is not confined to 1: the caps
    at 1.0 apply to the two boosts only. *)
Theorem confidence_bounds :
  (∀ message : string,
     (0 <=? confidence (_rule_based_detection message)) = true
     ∧ (confidence (_rule_based_detection message) <=? 2.31) = true
     ∧ (category_scores message = [] →
        (confidence (_rule_based_detection message) <=? 0.55) = true))
  ∧ (1 <? confidence (_rule_based_detection
                        "won lottery prize claim your prize lucky draw")) = true.
Proof.
  assert (Hall : forallb (fun c => forallb (fun x => (0 <=? x) && (x <=? 2.31))
                                     (confidences_of c))
                   category_confidences = true) by (vm_compute; reflexivity).
  assert (Hnone : forallb (fun x => x <=? 0.55) (confidences_of 0) = true)
    by (vm_compute; reflexivity).
  split; [|vm_compute; reflexivity].
  intros message.
  pose proof (category_confidence_in_table message) as Hc.
  pose proof (confidence_in_table message) as Hin.
  assert (Hcat : In (category_confidence (_rule_based_detection message))
                    category_confidences).
  { unfold category_confidences.
    destruct (category_scores message); [left; symmetry; exact Hc|right; exact Hc]. }
  rewrite forallb_forall in Hall. specialize (Hall _ Hcat).
  rewrite forallb_forall in Hall. specialize (Hall _ Hin).
  apply andb_prop in Hall as [H0 H1]. split_and !; [exact H0|exact H1|].
  intros Hempty. rewrite Hempty in Hc. rewrite Hc in Hin.
  rewrite forallb_forall in Hnone. exact (Hnone _ Hin).
Qed.

Lemma any_match_is_scam_witness :
  (0.41 <? confidence (_rule_based_detection "lucky draw")) = true
  ∧ detect "lucky draw" []
    = (true, confidence (_rule_based_detection "lucky draw"),
       scam_type (_rule_based_detection "lucky draw")).
Proof.
  destruct (any_match_is_scam "lucky draw" []) as (H1 & H2 & _).
  - vm_compute. discriminate.
  - split; [exact H1|exact H2].
Defined.

End ClassifierBounds.


(** ** More on the extractor *)

Section Deduplication.
Import IntelligenceExtractor Extraction.

Lemma deduplicate_fold (items : list string) (seen : gset string) (result : list string) :
  snd (fold_left
         (fun '(seen, result) item =>
            let item_lower := Str.lower item in
            if bool_decide (item_lower ∈ (seen : gset string))
            then (seen, result)
            else ({[ item_lower ]} ∪ seen, (result ++ [item])%list))
         items (seen, result))
  = (result ++ first_occurrences seen items)%list.
Proof.
  revert seen result. induction items as [|item items IH]; intros seen result; simpl.
  - by rewrite app_nil_r.
  - case_bool_decide; rewrite IH; [done|]. by rewrite <- app_assoc.
Qed.

Lemma deduplicate_first_occurrences (items : list string) :
  _deduplicate items = first_occurrences ∅ items.
Proof. unfold _deduplicate. by rewrite deduplicate_fold. Qed.

Lemma first_occurrences_sublist seen items :
  sublist (first_occurrences seen items) items.
Proof.
  revert seen. induction items as [|item items IH]; intros seen; simpl; [done|].
  case_bool_decide; [by apply sublist_cons|by apply sublist_skip].
Qed.

Lemma first_occurrences_unseen seen items x :
  In x (first_occurrences seen items) → Str.lower x ∉ seen.
Proof.
  revert seen. induction items as [|item items IH]; intros seen; simpl; [done|].
  case_bool_decide as Hseen.
  - apply IH.
  - intros [<-|Hin]; [done|]. apply IH in Hin. set_solver.
Qed.

Lemma first_occurrences_NoDup seen items :
  NoDup (map Str.lower (first_occurrences seen items)).
Proof.
  revert seen. induction items as [|item items IH]; intros seen; simpl; [constructor|].
  case_bool_decide as Hseen; [apply IH|].
  simpl. apply NoDup_cons. split; [|apply IH].
  intros Hin%list_elem_of_In%in_map_iff. destruct Hin as (x & Hx & Hin).
  apply first_occurrences_unseen in Hin. set_solver.
Qed.

Lemma first_occurrences_covers seen items x :
  In x items →
  Str.lower x ∈ seen ∨ In (Str.lower x) (map Str.lower (first_occurrences seen items)).
Proof.
  revert seen. induction items as [|item items IH]; intros seen; simpl; [done|].
  intros [->|Hin].
  - case_bool_decide as Hseen; [by left|right; by left].
  - case_bool_decide as Hseen; [by apply IH|].
    destruct (IH ({[ Str.lower item ]} ∪ seen) Hin) as [Hs|Hr]; [|right; by right].
    apply elem_of_union in Hs as [->%elem_of_singleton|Hs]; [right; by left|by left].
Qed.

Lemma first_occurrences_first seen pre x post :
  Str.lower x ∉ seen → ¬ In (Str.lower x) (map Str.lower pre) →
  In x (first_occurrences seen (pre ++ x :: post)).
Proof.
  revert seen. induction pre as [|y pre IH]; intros seen Hseen Hpre; simpl.
  - rewrite bool_decide_eq_false_2 by done. by left.
  - simpl in Hpre. case_bool_decide as Hy.
    + apply IH; [done|tauto].
    + right. apply IH; [|tauto]. set_solver.
Qed.

Lemma first_occurrences_id seen items :
  NoDup (map Str.lower items) → (∀ x, In x items → Str.lower x ∉ seen) →
  first_occurrences seen items = items.
Proof.
  revert seen. induction items as [|item items IH]; intros seen Hnd Hseen; simpl; [done|].
  simpl in Hnd. apply NoDup_cons in Hnd as [Hitem Hnd].
  rewrite bool_decide_eq_false_2 by (apply Hseen; by left).
  f_equal. apply IH; [done|]. intros x Hx.
  assert (Str.lower x ≠ Str.lower item).
  { intros Heq. apply Hitem. rewrite <- Heq. apply list_elem_of_In, in_map, Hx. }
  specialize (Hseen x (or_intror Hx)). set_solver.
Qed.

(** X14. [_deduplicate] keeps the items in their order, drops every item
    whose lowered value came before, and so keeps one item, the first,
    for each lowered value of the input. *)
Theorem deduplicate_keeps_first_occurrences (items : list string) :
  sublist (_deduplicate items) items
  ∧ NoDup (map Str.lower (_deduplicate items))
  ∧ (∀ x, In x items → In (Str.lower x) (map Str.lower (_deduplicate items)))
  ∧ (∀ pre x post, items = (pre ++ x :: post)%list →
       ¬ In (Str.lower x) (map Str.lower pre) → In x (_deduplicate items)).
Proof.
  rewrite deduplicate_first_occurrences. split_and !.
  - apply first_occurrences_sublist.
  - apply first_occurrences_NoDup.
  - intros x Hx. destruct (first_occurrences_covers ∅ items x Hx); [set_solver|done].
  - intros pre x post -> Hpre. apply first_occurrences_first; [set_solver|done].
Qed.

(** X15. [_deduplicate] changes nothing in a list without two items of the
    same lowered value; so deduplicating twice is deduplicating once. *)
Theorem deduplicate_idempotent (items : list string) :
  (NoDup (map Str.lower items) → _deduplicate items = items)
  ∧ _deduplicate (_deduplicate items) = _deduplicate items.
Proof.
  assert (Hid : ∀ l, NoDup (map Str.lower l) → _deduplicate l = l).
  { intros l Hnd. rewrite deduplicate_first_occurrences.
    apply first_occurrences_id; [done|set_solver]. }
  split; [apply Hid|]. apply Hid.
  rewrite deduplicate_first_occurrences. apply first_occurrences_NoDup.
Qed.

End Deduplication.


Section Keywords.
Import IntelligenceExtractor Extraction.

Lemma keywords_inner (text_lower : string) (keywords found : list string) :
  NoDup keywords → (∀ k, In k keywords → ¬ In k found) →
  fold_left
    (fun found keyword =>
       if Str.contains keyword text_lower && negb (bool_decide (keyword ∈ found))
       then (found ++ [keyword])%list else found)
    keywords found
  = (found ++ List.filter (fun k => Str.contains k text_lower) keywords)%list.
Proof.
  revert found. induction keywords as [|k ks IH]; intros found Hnd Hfresh; simpl.
  - by rewrite app_nil_r.
  - apply NoDup_cons in Hnd as [Hk Hnd].
    rewrite (bool_decide_eq_false_2 (k ∈ found))
      by (rewrite list_elem_of_In; apply Hfresh; by left).
    rewrite andb_true_r. destruct (Str.contains k text_lower).
    + rewrite IH; [by rewrite <- app_assoc|done|].
      intros k' Hk' [Hin|Hin]%in_app_or.
      * by apply (Hfresh k' (or_intror Hk')).
      * destruct Hin as [<-|[]]. by apply Hk, list_elem_of_In.
    + apply IH; [done|]. intros k' Hk'. apply Hfresh. by right.
Qed.

Lemma keywords_outer (text_lower : string) (categories : list (string * list string))
    (found : list string) :
  NoDup (concat (map snd categories)) →
  (∀ k, In k (concat (map snd categories)) → ¬ In k found) →
  fold_left
    (fun found_keywords '(_, keywords) =>
       fold_left
         (fun found keyword =>
            if Str.contains keyword text_lower && negb (bool_decide (keyword ∈ found))
            then (found ++ [keyword])%list else found)
         keywords found_keywords)
    categories found
  = (found ++ List.filter (fun k => Str.contains k text_lower)
                (concat (map snd categories)))%list.
Proof.
  revert found. induction categories as [|[name ks] cats IH]; intros found Hnd Hfresh; simpl.
  - by rewrite app_nil_r.
  - simpl in Hnd, Hfresh. apply NoDup_app in Hnd as (Hks & Hdisj & Hrest).
    rewrite keywords_inner; [|done|intros k Hk; apply Hfresh, in_or_app; by left].
    rewrite IH; [by rewrite List.filter_app, <- app_assoc|done|].
    intros k Hk [Hin|Hin]%in_app_or.
    + apply (Hfresh k); [apply in_or_app; by right|done].
    + apply filter_In in Hin as [Hin _].
      apply (Hdisj k); by apply list_elem_of_In.
Qed.

Lemma lower_char_idempotent (c : ascii) : Chars.lower (Chars.lower c) = Chars.lower c.
Proof. destruct c as [[] [] [] [] [] [] [] []]; reflexivity. Qed.

Lemma lower_idempotent (s : string) : Str.lower (Str.lower s) = Str.lower s.
Proof.
  unfold Str.lower. rewrite list_ascii_of_string_of_list_ascii, map_map.
  f_equal. apply map_ext. intros c. apply lower_char_idempotent.
Qed.

Lemma all_keywords_NoDup : NoDup all_keywords.
Proof. apply (bool_decide_eq_true_1 (NoDup all_keywords)). vm_compute. reflexivity. Qed.

Lemma extract_keywords_filter (text : string) :
  _extract_keywords text
  = List.filter (fun k => Str.contains k (Str.lower text)) all_keywords.
Proof.
  unfold _extract_keywords.
  rewrite (keywords_outer (Str.lower text) KEYWORD_CATEGORIES []);
    [done|exact all_keywords_NoDup|].
  intros k _ [].
Qed.

Lemma extract_keywords_NoDup (text : string) : NoDup (_extract_keywords text).
Proof.
  rewrite extract_keywords_filter.
  apply NoDup_ListNoDup, List.NoDup_filter, NoDup_ListNoDup, all_keywords_NoDup.
Qed.

(** X16. [_extract_keywords] returns the keywords of the table that the
    lowered text contains, each once, in the order of the table and not
    of the text; the case of the text does not matter. *)
Theorem keywords_in_table_order (text : string) :
  _extract_keywords text
  = List.filter (fun k => Str.contains k (Str.lower text)) all_keywords
  ∧ NoDup (_extract_keywords text)
  ∧ _extract_keywords (Str.lower text) = _extract_keywords text.
Proof.
  split_and !.
  - apply extract_keywords_filter.
  - apply extract_keywords_NoDup.
  - by rewrite !extract_keywords_filter, lower_idempotent.
Qed.

End Keywords.

Section Phones.
Import IntelligenceExtractor Extraction.

Lemma filter_digits_id (l : list ascii) :
  Forall (fun c => Chars.is_digit c = true) l → List.filter Chars.is_digit l = l.
Proof.
  induction 1 as [|c l Hc _ IH]; simpl; [done|]. by rewrite Hc, IH.
Qed.

Lemma string_of_list_ascii_length (l : list ascii) :
  String.length (string_of_list_ascii l) = length l.
Proof. induction l as [|c l IH]; simpl; [done|]. by rewrite IH. Qed.

Lemma first_digit_accepted (c : ascii) (rest : string) :
  (c = "7" ∨ c = "8" ∨ c = "9")%char →
  Str.contains (String.substring 0 1 (String c rest)) "789" = true.
Proof. intros [-> | [-> | ->]]; destruct rest; reflexivity. Qed.

Lemma normalize_phone_normalized (phone n : string) :
  normalize_phone phone = Some n → normalized n.
Proof. apply normalize_phone_accepts. Qed.

Lemma sub_non_digits_normalized (d : string) :
  Forall (fun c => Chars.is_digit c = true) (list_ascii_of_string d) →
  Re.sub_non_digits ("+91" +:+ d) = "91" +:+ d.
Proof.
  intros Hd. unfold Re.sub_non_digits.
  rewrite list_ascii_of_string_app, List.filter_app, (filter_digits_id _ Hd).
  change (List.filter Chars.is_digit (list_ascii_of_string "+91"))
    with (list_ascii_of_string "91").
  rewrite <- list_ascii_of_string_app. apply string_of_list_ascii_of_string.
Qed.

Lemma drop_91 (d : string) : Str.drop 2 ("91" +:+ d) = d.
Proof. unfold Str.drop. simpl. apply string_of_list_ascii_of_string. Qed.

Lemma normalized_is_fixed (n : string) :
  normalized n → normalize_phone n = Some n ∧ validate_phone n = false.
Proof.
  intros (c & rest & -> & Hlen & Hc & Hdigits).
  pose proof (sub_non_digits_normalized _ Hdigits) as Hsub.
  pose proof (first_digit_accepted c rest Hc) as Hfirst.
  remember (String c rest) as d eqn:Hd in *. clear Hd Hc.
  assert (Hlen' : String.length ("91" +:+ d) = 12%nat).
  { change (String.length ("91" +:+ d)) with (S (S (String.length d))).
    by rewrite Hlen. }
  split.
  - unfold normalize_phone. rewrite Hsub.
    change (Str.startswith ("91" +:+ d) "0") with false. cbv iota.
    change (Str.startswith ("91" +:+ d) "91") with true.
    rewrite Hlen'. cbn [Nat.ltb Nat.leb andb]. rewrite drop_91, Hlen.
    cbn [Nat.eqb andb]. by rewrite Hfirst.
  - unfold validate_phone. by rewrite Hsub, Hlen'.
Qed.

(** X17. Normalizing is idempotent: a number that [_normalize_phones] has
    produced normalizes to itself. [validate_phone] takes the other
    convention: it accepts the bare ten digits, which normalize to
    "+91" and those digits, and it rejects every normalized number. *)
Theorem phone_normalization_is_idempotent (phone n : string) :
  normalize_phone phone = Some n →
  normalize_phone n = Some n
  ∧ _normalize_phones [n] = [n]
  ∧ validate_phone n = false.
Proof.
  intros Hn%normalize_phone_normalized%normalized_is_fixed. destruct Hn as [Hfix Hval].
  split_and !; [done| |done]. unfold _normalize_phones. simpl. by rewrite Hfix.
Qed.

Lemma phone_normalization_is_idempotent_witness :
  normalize_phone "+919876543210" = Some "+919876543210"
  ∧ _normalize_phones ["+919876543210"] = ["+919876543210"]
  ∧ validate_phone "+919876543210" = false.
Proof.
  apply (phone_normalization_is_idempotent "09876543210"). vm_compute. reflexivity.
Defined.

(** X18. A phone that [validate_phone] accepts, ten digits of which the
    first is 7, 8 or 9 once everything else is stripped, is one that
    [_normalize_phones] keeps, as "+91" and those digits. *)
Theorem valid_phones_normalize (phone : string) :
  validate_phone phone = true →
  normalize_phone phone = Some ("+91" +:+ Re.sub_non_digits phone).
Proof.
  unfold validate_phone, normalize_phone.
  set (d := Re.sub_non_digits phone).
  intros [Hlen Hfirst]%andb_prop. apply Nat.eqb_eq in Hlen.
  destruct (starts_with_789 d Hlen Hfirst) as (c & rest & Hd & Hc).
  clearbody d. subst d.
  assert (H0 : Str.startswith (String c rest) "0" = false)
    by (destruct Hc as [-> | [-> | ->]]; reflexivity).
  rewrite H0.
  assert (H91 : (10 <? String.length (String c rest))%nat = false)
    by (rewrite Hlen; reflexivity).
  rewrite H91, andb_false_r, Hlen. cbn [Nat.eqb andb].
  by rewrite (first_digit_accepted c rest Hc).
Qed.

Lemma valid_phones_normalize_witness :
  normalize_phone "98765 43210" = Some ("+91" +:+ Re.sub_non_digits "98765 43210").
Proof. apply valid_phones_normalize. vm_compute. reflexivity. Defined.

End Phones.


Section ExtractedShapes.
Import Re IntelligenceExtractor Extraction.

Lemma run_seq ic a b st st' :
  In st' (run ic (Seq a b) st) ↔ ∃ mid, In mid (run ic a st) ∧ In st' (run ic b mid).
Proof. simpl. apply in_flat_map. Qed.

Lemma run_chr c st st' :
  In st' (run false (chr c) st) → rest st = c :: rest st'.
Proof.
  simpl. destruct (rest st) as [|x tl]; [done|].
  unfold test. rewrite orb_false_r.
  destruct (Ascii.eqb_spec c x) as [->|]; [|done]. by intros [<-|[]].
Qed.

Lemma run_opt ic r st st' :
  In st' (run ic (opt r) st) → st' = st ∨ In st' (run ic r st).
Proof.
  unfold opt. simpl. destruct (length (rest st)) as [|fuel]; simpl.
  - intros [<-|[]]. by left.
  - intros [Hin|[<-|[]]]%in_app_or; [|by left]. right.
    apply in_flat_map in Hin as (mid & Hmid & Hin).
    destruct (length (rest mid) <? length (rest st))%nat; [|done].
    destruct fuel; simpl in Hin; destruct Hin as [<-|[]]; done.
Qed.

Lemma rep_forward body :
  (∀ st st', In st' (body st) → ∃ consumed, rest st = (consumed ++ rest st')%list) →
  ∀ fuel lo hi st st', In st' (rep body fuel lo hi st) →
    ∃ consumed, rest st = (consumed ++ rest st')%list.
Proof.
  intros Hbody. induction fuel as [|fuel IH]; intros lo hi st st'; simpl.
  - destruct (lo =? 0)%nat; [|done]. intros [<-|[]]. by exists [].
  - intros [Hmore|Hstop]%in_app_or.
    + assert (Hflat : In st'
                (flat_map
                   (fun mid =>
                      if (length (rest mid) <? length (rest st))%nat
                      then rep body fuel (Nat.pred lo) (option_map Nat.pred hi) mid
                      else []) (body st))).
      { destruct hi as [[|h]|]; done. }
      apply in_flat_map in Hflat as (mid & Hmid & Hin).
      destruct (length (rest mid) <? length (rest st))%nat; [|done].
      destruct (Hbody _ _ Hmid) as (c1 & ->).
      destruct (IH _ _ _ _ Hin) as (c2 & ->).
      exists (c1 ++ c2)%list. by rewrite app_assoc.
    + destruct (lo =? 0)%nat; [|done]. destruct Hstop as [<-|[]]. by exists [].
Qed.

(** The matcher only moves forward: what is left after a match is a
    suffix of what was there before. *)
Lemma run_forward ic r st st' :
  In st' (run ic r st) → ∃ consumed, rest st = (consumed ++ rest st')%list.
Proof.
  revert st st'. induction r as [|p|r1 IH1 r2 IH2|r1 IH1 r2 IH2|r IH lo hi|r IH|];
    intros st st'; simpl.
  - intros [<-|[]]. by exists [].
  - destruct (rest st) as [|c tl]; [done|]. destruct (test ic p c); [|done].
    intros [<-|[]]. by exists [c].
  - intros (mid & Hmid & Hin)%in_flat_map.
    destruct (IH1 _ _ Hmid) as (c1 & ->). destruct (IH2 _ _ Hin) as (c2 & ->).
    exists (c1 ++ c2)%list. by rewrite app_assoc.
  - intros [Hin|Hin]%in_app_or; eauto.
  - by apply rep_forward.
  - intros (mid & <- & Hmid)%in_map_iff. simpl. eauto.
  - destruct (xorb _ _); [|done]. intros [<-|[]]. by exists [].
Qed.

Lemma matched_text (consumed left : list ascii) :
  firstn (length (consumed ++ left) - length left) (consumed ++ left)%list = consumed.
Proof.
  rewrite length_app, Nat.add_sub.
  induction consumed as [|c l IH]; simpl; [by destruct left|]. by rewrite IH.
Qed.

(** What [findall] returns for a pattern without a group: texts that
    the pattern matches. *)
Lemma findall_items (P : list ascii → Prop) (p : pattern) :
  has_group (expr p) = false →
  (∀ st st', In st' (run (ignorecase p) (expr p) st) →
     P (firstn (length (rest st) - length (rest st')) (rest st))) →
  ∀ fuel st, Forall P (findall_from fuel p st).
Proof.
  intros Hgroup Hmatch. induction fuel as [|fuel IH]; intros st; simpl; [constructor|].
  assert (Hskip : Forall P match rest st with
                           | [] => []
                           | c :: tl => findall_from fuel p (MState (Some c) tl None)
                           end)
    by (destruct (rest st); [constructor|apply IH]).
  destruct (run (ignorecase p) (expr p) st) as [|st' others] eqn:Hrun; [done|].
  rewrite Hgroup. constructor.
  - apply Hmatch. rewrite Hrun. by left.
  - destruct (_ =? 0)%nat; [done|apply IH].
Qed.

Lemma full_link_shape st st' :
  In st' (run false (expr PATTERNS.phishingLinks) st) →
  ∃ more, firstn (length (rest st) - length (rest st')) (rest st)
          = (list_ascii_of_string "http://" ++ more)%list
        ∨ firstn (length (rest st) - length (rest st')) (rest st)
          = (list_ascii_of_string "https://" ++ more)%list.
Proof.
  unfold PATTERNS.phishingLinks. cbn [expr seq lit lit_chars list_ascii_of_string].
  intros (m1 & H1 & Hin)%run_seq.
  apply run_seq in H1 as (a1 & Hh & H1). apply run_chr in Hh.
  apply run_seq in H1 as (a2 & Ht & H1). apply run_chr in Ht.
  apply run_seq in H1 as (a3 & Ht' & Hp). apply run_chr in Ht'. apply run_chr in Hp.
  apply run_seq in Hin as (m2 & Hs & Hin).
  apply run_seq in Hin as (m3 & H3 & Hin).
  apply run_seq in H3 as (b1 & Hc & H3). apply run_chr in Hc.
  apply run_seq in H3 as (b2 & Hs1 & Hs2). apply run_chr in Hs1. apply run_chr in Hs2.
  apply run_forward in Hin as (more & Hmore).
  apply run_opt in Hs as [->|Hs].
  - exists more. left.
    rewrite Hh, Ht, Ht', Hp, Hc, Hs1, Hs2, Hmore.
    apply (matched_text ("h" :: "t" :: "t" :: "p" :: ":" :: "/" :: "/" :: more)%char).
  - apply run_chr in Hs. exists more. right.
    rewrite Hh, Ht, Ht', Hp, Hs, Hc, Hs1, Hs2, Hmore.
    apply (matched_text ("h" :: "t" :: "t" :: "p" :: "s" :: ":" :: "/" :: "/" :: more)%char).
Qed.

Lemma normalize_phones_from (phones normalized : list string) (n : string) :
  In n (fold_left
          (fun normalized phone =>
             match normalize_phone phone with
             | Some n => (normalized ++ [n])%list
             | None => normalized
             end)
          phones normalized) →
  In n normalized ∨ ∃ phone, In phone phones ∧ normalize_phone phone = Some n.
Proof.
  revert normalized. induction phones as [|phone phones IH]; intros acc; simpl; [by left|].
  intros Hin. apply IH in Hin as [Hin|(phone' & Hp & Hn)].
  - destruct (normalize_phone phone) as [n'|] eqn:Hn; [|by left].
    apply in_app_or in Hin as [Hin|[<-|[]]]; [by left|]. right. exists phone. by split; [left|].
  - right. exists phone'. by split; [right|].
Qed.

Lemma in_deduplicate (items : list string) (x : string) :
  In x (_deduplicate items) → In x items.
Proof.
  rewrite deduplicate_first_occurrences. intros Hin%list_elem_of_In.
  apply list_elem_of_In. eapply elem_of_sublist; [exact Hin|apply first_occurrences_sublist].
Qed.

Lemma startswith_chars (l more : list ascii) (prefix : string) :
  l = (list_ascii_of_string prefix ++ more)%list →
  Str.startswith (string_of_list_ascii l) prefix = true.
Proof.
  intros ->. unfold Str.startswith. rewrite list_ascii_of_string_of_list_ascii.
  induction (list_ascii_of_string prefix) as [|c l IH]; simpl; [by destruct more|].
  by rewrite Ascii.eqb_refl.
Qed.

(** X19. Whatever the text, no collection of an extraction holds two values
    that differ only in case and every link starts with "http://" or
    "https://"; of an ASCII text, every phone number is in the
    normalized form, on which normalizing changes nothing. *)
Theorem extraction_is_well_formed (text : string) :
  let e := extract text in
  NoDup (map Str.lower (upiIds e))
  ∧ NoDup (map Str.lower (bankAccounts e))
  ∧ NoDup (map Str.lower (phoneNumbers e))
  ∧ NoDup (map Str.lower (phishingLinks e))
  ∧ NoDup (suspiciousKeywords e)
  ∧ (Str.isascii text = true →
     ∀ n, In n (phoneNumbers e) → normalized n ∧ normalize_phone n = Some n)
  ∧ (∀ link, In link (phishingLinks e) →
       Str.startswith link "http://" = true ∨ Str.startswith link "https://" = true).
Proof.
  intros e. subst e. unfold extract. cbn [upiIds bankAccounts phoneNumbers phishingLinks
                                         suspiciousKeywords].
  rewrite !deduplicate_first_occurrences.
  split_and !; try apply first_occurrences_NoDup.
  - apply extract_keywords_NoDup.
  - intros _ n Hn. rewrite <- deduplicate_first_occurrences in Hn.
    apply in_deduplicate in Hn. unfold _normalize_phones in Hn.
    apply normalize_phones_from in Hn as [[]|(phone & _ & Hn)].
    apply normalize_phone_normalized in Hn. split; [done|].
    by apply normalized_is_fixed.
  - intros link Hlink. rewrite <- deduplicate_first_occurrences in Hlink.
    apply in_deduplicate in Hlink. apply in_app_or in Hlink as [Hfull|Hshort].
    + unfold findall in Hfull. apply in_map_iff in Hfull as (l & <- & Hl).
      pose proof (findall_items
                    (fun l => ∃ more, l = (list_ascii_of_string "http://" ++ more)%list
                                      ∨ l = (list_ascii_of_string "https://" ++ more)%list)
                    PATTERNS.phishingLinks eq_refl full_link_shape) as Hall.
      specialize (Hall (S (length (list_ascii_of_string text)))
                       (MState None (list_ascii_of_string text) None)).
      rewrite Forall_forall in Hall. apply list_elem_of_In in Hl.
      destruct (Hall _ Hl) as (more & [H|H]);
        [left|right]; by eapply startswith_chars.
    + apply in_map_iff in Hshort as (m & <- & _). by left.
Qed.

Lemma extraction_is_well_formed_witness :
  normalized "+919876543210"
  ∧ normalize_phone "+919876543210" = Some "+919876543210".
Proof.
  destruct (extraction_is_well_formed "call 09876543210 now")
    as (_ & _ & _ & _ & _ & Hphones & _).
  apply Hphones; vm_compute; [reflexivity|by left].
Defined.

End ExtractedShapes.


(** ** The Reporter *)

Section Reporter.
Import Callback Delivery.

Variable network : nat → outcome.
Variable max_retries : nat.

Lemma trace_from_cons (first last : nat) :
  (first ≤ last)%nat →
  trace_from first last
  = ((if (first <? last)%nat then [Post first; Sleep (2 ^ first)] else [Post first])
     ++ trace_from (S first) last)%list.
Proof.
  intros Hle. unfold trace_from.
  replace (S last - first)%nat with (S (S last - S first)) by lia. reflexivity.
Qed.

Lemma trace_from_nil (first last : nat) : (last < first)%nat → trace_from first last = [].
Proof. intros Hlt. unfold trace_from. by replace (S last - first)%nat with 0%nat by lia. Qed.

Lemma not_stops_not_accepted (o : outcome) : stops o = false → accepted o = false.
Proof. destruct o; simpl; [|done..]. by intros [? _]%orb_false_elim. Qed.

Lemma send_from_trace (remaining attempt : nat) :
  (attempt + remaining = S max_retries)%nat → (1 ≤ attempt)%nat →
  ∃ last,
    (attempt - 1 ≤ last ≤ max_retries)%nat
    ∧ ((1 ≤ remaining)%nat → (attempt ≤ last)%nat)
    ∧ snd (send_from network max_retries remaining attempt) = trace_from attempt last
    ∧ (∀ j, (attempt ≤ j < last)%nat → stops (network j) = false)
    ∧ ((attempt ≤ last < max_retries)%nat → stops (network last) = true)
    ∧ fst (send_from network max_retries remaining attempt)
      = (attempt <=? last)%nat && accepted (network last).
Proof.
  revert attempt. induction remaining as [|remaining IH]; intros attempt Hsum Hpos.
  - exists max_retries. simpl. split_and !; try lia.
    + rewrite trace_from_nil; [done|lia].
    + destruct (Nat.leb_spec attempt max_retries); [lia|reflexivity].
  - assert (Hstop : stops (network attempt) = true →
                    ∃ last, (attempt - 1 ≤ last ≤ max_retries)%nat
                      ∧ ((1 ≤ S remaining)%nat → (attempt ≤ last)%nat)
                      ∧ [Post attempt] = trace_from attempt last
                      ∧ (∀ j, (attempt ≤ j < last)%nat → stops (network j) = false)
                      ∧ ((attempt ≤ last < max_retries)%nat → stops (network last) = true)
                      ∧ accepted (network attempt)
                        = (attempt <=? last)%nat && accepted (network last)).
    { intros Hs. exists attempt. split_and !; try lia; try done.
      - rewrite trace_from_cons, trace_from_nil by lia.
        by rewrite Nat.ltb_irrefl.
      - by rewrite Nat.leb_refl. }
    assert (Hretry : stops (network attempt) = false →
      ∃ last, (attempt - 1 ≤ last ≤ max_retries)%nat
        ∧ ((1 ≤ S remaining)%nat → (attempt ≤ last)%nat)
        ∧ snd (let '(success, events) :=
                 send_from network max_retries remaining (S attempt) in
               (success,
                (Post attempt
                 :: (if (attempt <? max_retries)%nat then [Sleep (2 ^ attempt)] else [])
                 ++ events)%list))
          = trace_from attempt last
        ∧ (∀ j, (attempt ≤ j < last)%nat → stops (network j) = false)
        ∧ ((attempt ≤ last < max_retries)%nat → stops (network last) = true)
        ∧ fst (let '(success, events) :=
                 send_from network max_retries remaining (S attempt) in
               (success,
                (Post attempt
                 :: (if (attempt <? max_retries)%nat then [Sleep (2 ^ attempt)] else [])
                 ++ events)%list))
          = (attempt <=? last)%nat && accepted (network last)).
    { intros Hs.
      destruct (IH (S attempt) ltac:(lia) ltac:(lia))
        as (last & Hrange & Hlast & Htrace & Hbefore & Hend & Hres).
      destruct (send_from network max_retries remaining (S attempt)) as [success events].
      cbn [fst snd] in Htrace, Hres. cbn [fst snd].
      destruct remaining as [|remaining'].
      - (* the last attempt *)
        assert (attempt = max_retries) by lia. subst attempt.
        assert (last = max_retries) by lia. subst last.
        exists max_retries. rewrite Nat.ltb_irrefl. split_and !; try lia.
        + rewrite trace_from_cons, Nat.ltb_irrefl by lia. simpl. by rewrite Htrace.
        + rewrite Hres, (not_stops_not_accepted _ Hs), !andb_false_r. reflexivity.
      - specialize (Hlast ltac:(lia)).
        exists last. split_and !; try lia.
        + rewrite (trace_from_cons attempt last) by lia.
          destruct (Nat.ltb_spec attempt max_retries); [|lia].
          destruct (Nat.ltb_spec attempt last); [|lia].
          simpl. by rewrite Htrace.
        + intros j Hj. destruct (decide (j = attempt)) as [->|]; [done|].
          apply Hbefore. lia.
        + intros Hj. apply Hend. lia.
        + rewrite Hres.
          destruct (Nat.leb_spec (S attempt) last); [|lia].
          destruct (Nat.leb_spec attempt last); [reflexivity|lia]. }
    cbn [send_from].
    destruct (network attempt) as [status| | |] eqn:Hnet;
      try (apply Hretry; reflexivity).
    destruct (status =? 200)%Z eqn:H200.
    + destruct Hstop as (last & H); [simpl; by rewrite H200|].
      exists last. simpl in H. rewrite H200 in H. exact H.
    + destruct ((400 <=? status)%Z && (status <? 500)%Z) eqn:H4xx.
      * destruct Hstop as (last & H); [simpl; by rewrite H200, H4xx|].
        exists last. simpl in H. rewrite H200 in H. exact H.
      * apply Hretry. simpl. by rewrite H200, H4xx.
Qed.

Lemma seconds_waited_app (a b : list event) :
  seconds_waited (a ++ b) = (seconds_waited a + seconds_waited b)%nat.
Proof.
  induction a as [|[j|s] a IH]; simpl; [done|exact IH|].
  fold (seconds_waited (a ++ b)) (seconds_waited a). rewrite IH. lia.
Qed.

Lemma seconds_waited_trace (first last : nat) :
  (1 ≤ first)%nat → (first ≤ S last)%nat →
  (seconds_waited (trace_from first last) + 2 ^ first = 2 ^ Nat.max first last)%nat.
Proof.
  intros Hpos Hle. remember (S last - first)%nat as len eqn:Hlen.
  revert first Hpos Hle Hlen. induction len as [|len IH]; intros first Hpos Hle Hlen.
  - rewrite trace_from_nil by lia.
    replace (Nat.max first last) with first by lia. reflexivity.
  - rewrite trace_from_cons, seconds_waited_app by lia.
    specialize (IH (S first) ltac:(lia) ltac:(lia) ltac:(lia)).
    destruct (Nat.ltb_spec first last) as [Hlt|Hge].
    + replace (Nat.max first last) with (Nat.max (S first) last) by lia.
      rewrite <- IH.
      change (seconds_waited [Post first; Sleep (2 ^ first)]) with (2 ^ first + 0)%nat.
      rewrite Nat.pow_succ_r'. lia.
    + assert (first = last) by lia. subst.
      rewrite trace_from_nil by lia.
      replace (Nat.max last last) with last by lia. reflexivity.
Qed.

(** X20. [send_final_result] attempts in order, at most [max_retries] times,
    and at least once when [max_retries] is not 0; it stops at the
    first attempt that the endpoint accepts (200) or refuses as a
    client error (4xx) and goes on after any other failure; it
    succeeds exactly when its last attempt is accepted. *)
Theorem send_final_result_attempts :
  ∃ last,
    (last ≤ max_retries)%nat
    ∧ ((1 ≤ max_retries)%nat → (1 ≤ last)%nat)
    ∧ snd (send_final_result network max_retries) = trace_from 1 last
    ∧ (∀ j, (1 ≤ j < last)%nat → stops (network j) = false)
    ∧ ((1 ≤ last < max_retries)%nat → stops (network last) = true)
    ∧ fst (send_final_result network max_retries)
      = (1 <=? last)%nat && accepted (network last).
Proof.
  unfold send_final_result.
  destruct (send_from_trace max_retries 1 ltac:(lia) ltac:(lia))
    as (last & Hrange & Hlast & Htrace & Hbefore & Hend & Hres).
  exists last. split_and !; try done; lia.
Qed.

(** X21. Between two attempts [send_final_result] waits 2^j seconds after
    attempt j, and it never waits after its last attempt: all in all
    2^n - 2 seconds for n attempts, so less than 2^[max_retries], at
    most 6 with the 3 attempts of the default. *)
Theorem send_final_result_backoff :
  ∃ last,
    (last ≤ max_retries)%nat
    ∧ snd (send_final_result network max_retries) = trace_from 1 last
    ∧ (seconds_waited (snd (send_final_result network max_retries)) + 2
       = 2 ^ Nat.max 1 last)%nat
    ∧ (seconds_waited (snd (send_final_result network max_retries)) + 2
       ≤ 2 ^ Nat.max 1 max_retries)%nat.
Proof.
  unfold send_final_result.
  destruct (send_from_trace max_retries 1 ltac:(lia) ltac:(lia))
    as (last & Hrange & _ & Htrace & _).
  pose proof (seconds_waited_trace 1 last ltac:(lia) ltac:(lia)) as Hwait.
  rewrite <- Htrace in Hwait. change (2 ^ 1)%nat with 2%nat in Hwait.
  exists last. split_and !; [lia|done|done|].
  rewrite Hwait. apply Nat.pow_le_mono_r; lia.
Qed.

(** X22. With one attempt allowed, [send_final_result] is
    [send_final_result_sync]: one POST, no wait, and success exactly on
    a 200. With none allowed it posts nothing and fails. *)
Theorem single_attempt_is_sync :
  send_final_result network 1 = (send_final_result_sync network, [Post 1])
  ∧ send_final_result network 0 = (false, []).
Proof.
  split; [|reflexivity].
  unfold send_final_result, send_final_result_sync. cbn [send_from].
  destruct (network 1%nat) as [status_code| | |]; try reflexivity.
  destruct (status_code =? 200)%Z; [reflexivity|].
  by destruct ((400 <=? status_code)%Z && (status_code <? 500)%Z).
Qed.

End Reporter.

(** Two timeouts, then a 200: three attempts, 2 and 4 seconds apart. *)
Example send_final_result_third_time :
  Callback.send_final_result
    (fun attempt => if (attempt <? 3)%nat then Callback.TimeoutException
                    else Callback.Response 200) 3
  = (true, [Callback.Post 1; Callback.Sleep 2; Callback.Post 2; Callback.Sleep 4;
            Callback.Post 3]).
Proof. reflexivity. Qed.

(** A 404 at the first attempt ends the attempts. *)
Example send_final_result_client_error :
  Callback.send_final_result (fun _ => Callback.Response 404) 3
  = (false, [Callback.Post 1]).
Proof. reflexivity. Qed.

(** A server that always fails is tried three times, with no wait after
    the third. *)
Example send_final_result_gives_up :
  Callback.send_final_result (fun _ => Callback.Response 503) 3
  = (false, [Callback.Post 1; Callback.Sleep 2; Callback.Post 2; Callback.Sleep 4;
             Callback.Post 3]).
Proof. reflexivity. Qed.



(** ** The persona's replies *)

Section PersonaReplies.
Import PersonaManager.

(** The response lists that [_select_response_strategy] chooses among. *)
Lemma strategy_pools (message_lower : string) (turn_count : nat) :
  List.In (_select_response_strategy message_lower turn_count)
    [ _initial_response;
      _respond_to_upi_request 0; _respond_to_upi_request 3;
      _respond_to_link; _respond_to_sensitive_request;
      _respond_to_urgency 0; _respond_to_urgency 2;
      _respond_to_account_request; _respond_to_fee_request;
      _generic_confused_response ].
Proof.
  unfold _select_response_strategy.
  destruct (turn_count =? 0)%nat; [by left|].
  destruct (any_word _ _).
  { unfold _respond_to_upi_request.
    destruct (turn_count <? 3)%nat; [right; by left|right; right; by left]. }
  destruct (any_word _ _); [do 3 right; by left|].
  destruct (any_word _ _); [do 4 right; by left|].
  destruct (any_word _ _).
  { unfold _respond_to_urgency.
    destruct (turn_count <? 2)%nat; [do 5 right; by left|do 6 right; by left]. }
  destruct (any_word _ _); [do 7 right; by left|].
  destruct (any_word _ _); [do 8 right; by left|].
  do 9 right. by left.
Qed.

Lemma choice_in (r : nat) (responses : list string) :
  responses ≠ [] →
  ∃ reply, choice r responses = Some reply ∧ List.In reply responses.
Proof.
  intros Hne. destruct responses as [|first others]; [done|].
  unfold choice.
  destruct (nth_error (first :: others) (r mod length (first :: others))) as [reply|] eqn:Hnth.
  - exists reply. split; [done|]. by eapply nth_error_In.
  - apply nth_error_None in Hnth.
    pose proof (Nat.mod_upper_bound r (length (first :: others)) ltac:(done)). lia.
Qed.

(** X23. [generate_response] always has a reply, and never an empty one:
    every list of responses it can select has an entry, so
    [random.choice] cannot fail, and no entry is the empty string; a
    generated reply that is missing or empty is replaced by one of the
    responses selected from the lowered message and the turn count. *)
Theorem generate_response_never_empty (llm_response : option string) (r : nat)
    (scammer_message : string) (session : Session) :
  ∃ reply,
    generate_response llm_response r scammer_message session = Some reply
    ∧ reply ≠ ""
    ∧ (match llm_response with
       | Some generated => generated ≠ "" → reply = generated
       | None => True
       end)
    ∧ (llm_response = None ∨ llm_response = Some "" →
       List.In reply
         (_select_response_strategy (Str.lower scammer_message) (turn_count session))).
Proof.
  assert (Hrules : ∃ reply,
            choice r (_select_response_strategy (Str.lower scammer_message)
                        (turn_count session)) = Some reply
            ∧ reply ≠ ""
            ∧ List.In reply
                (_select_response_strategy (Str.lower scammer_message)
                   (turn_count session))).
  { pose proof (strategy_pools (Str.lower scammer_message) (turn_count session)) as Hpool.
    assert (Hall : forallb (fun responses =>
                      negb (length responses =? 0)%nat
                      && forallb (fun reply => negb (String.eqb reply "")) responses)
                     [ _initial_response;
                       _respond_to_upi_request 0; _respond_to_upi_request 3;
                       _respond_to_link; _respond_to_sensitive_request;
                       _respond_to_urgency 0; _respond_to_urgency 2;
                       _respond_to_account_request; _respond_to_fee_request;
                       _generic_confused_response ] = true) by (vm_compute; reflexivity).
    rewrite forallb_forall in Hall. specialize (Hall _ Hpool).
    apply andb_prop in Hall as [Hlen Hreplies].
    destruct (choice_in r (_select_response_strategy (Str.lower scammer_message)
                             (turn_count session))) as (reply & Hchoice & Hin).
    { intros Hnil. rewrite Hnil in Hlen. discriminate. }
    exists reply. split_and !; [exact Hchoice| |exact Hin].
    rewrite forallb_forall in Hreplies. specialize (Hreplies _ Hin).
    intros ->. discriminate. }
  unfold generate_response.
  destruct llm_response as [generated|].
  - destruct (String.eqb_spec generated "") as [->|Hne]; cbn [negb].
    + destruct Hrules as (reply & Hchoice & Hreply & Hin).
      exists reply. split_and !; [exact Hchoice|exact Hreply|done|intros _; exact Hin].
    + exists generated. split_and !; [done|done|done|].
      intros [?|[= ?]]; [discriminate|done].
  - destruct Hrules as (reply & Hchoice & Hreply & Hin).
    exists reply. split_and !; [exact Hchoice|exact Hreply|done|intros _; exact Hin].
Qed.

End PersonaReplies.
